(** * HTTP log exporter: line parser and metric aggregator

    A shallow embedding of [parseLogLine] and [updateMetrics] of
    [exporters/httplogexporter/httplogexporter.go], with the four regular
    expressions the parser dispatches on, and the properties of the
    parser and of the aggregator that follow from the code.

    Go strings are byte sequences: a line is a [string] of 8-bit [ascii]
    characters.  The four patterns quantify only over single-character
    classes that are either ASCII sets or complements of ASCII sets, and
    every literal of the patterns is ASCII, so matching byte by byte
    accepts the same lines, at the same offsets and with the same
    captures, as Go's matching rune by rune (a multi-byte or invalid
    UTF-8 sequence consists of bytes >= 0x80, each of which is in every
    negated class of the patterns and is not a word character). *)

From Stdlib Require Import ZArith List Ascii String Bool Lia DecimalString.
From Stdlib Require Import DecimalPos DecimalZ.
From stdpp Require Import gmap strings.
Import ListNotations.

Local Open Scope Z_scope.

(** ** Bytes and character classes *)

Definition code (c : ascii) : Z := Z.of_N (N_of_ascii c).

Definition in_range (lo hi : Z) (c : ascii) : bool :=
  (lo <=? code c) && (code c <=? hi).

(** [\d] is [[0-9]]. *)
Definition is_digit (c : ascii) : bool := in_range 48 57 c.

(** [\w] is [[0-9A-Za-z_]]; it decides the word boundary [\b]. *)
Definition is_word (c : ascii) : bool :=
  in_range 48 57 c || in_range 65 90 c || in_range 97 122 c || (code c =? 95).

(** [\s] is [[\t\n\f\r ]] in Go (no vertical tab). *)
Definition is_space (c : ascii) : bool :=
  (code c =? 9) || (code c =? 10) || (code c =? 12) || (code c =? 13)
  || (code c =? 32).

(** [\S] *)
Definition non_space (c : ascii) : bool := negb (is_space c).

(** [[^x]] for a single excluded byte [x]. *)
Definition not_char (x : ascii) (c : ascii) : bool := negb (Ascii.eqb c x).

(** [[45]] *)
Definition is_4_or_5 (c : ascii) : bool := (code c =? 52) || (code c =? 53).

Definition dquote : ascii := ascii_of_nat 34.
Definition rbracket : ascii := ascii_of_nat 93.
Definition lbracket : ascii := ascii_of_nat 91.
Definition space : ascii := ascii_of_nat 32.
Definition colon : ascii := ascii_of_nat 58.
Definition dash : ascii := ascii_of_nat 45.

(** ** Regular expressions

    The constructs the four patterns of the exporter use.  Every
    quantifier of the patterns applies to a character class, so the
    quantifier constructors take the class; [x{2}] is [x] twice. *)

Inductive regex : Type :=
| Empty
| Lit (c : ascii)
| Class (p : ascii -> bool)
| Cat (r1 r2 : regex)
| Star (p : ascii -> bool)
| Plus (p : ascii -> bool)
| Cap (n : nat) (r : regex)
| BeginText
| WordBoundary.

(** A sequence of patterns, and a literal string. *)
Fixpoint Concat (rs : list regex) : regex :=
  match rs with
  | [] => Empty
  | r :: rs' => Cat r (Concat rs')
  end.

Fixpoint Str (s : list ascii) : regex :=
  match s with
  | [] => Empty
  | c :: s' => Cat (Lit c) (Str s')
  end.

(** Number of capture groups, [Regexp.NumSubexp]. *)
Fixpoint NumSubexp (r : regex) : nat :=
  match r with
  | Cat a b => (NumSubexp a + NumSubexp b)%nat
  | Cap _ a => S (NumSubexp a)
  | _ => 0%nat
  end.

(** ** The matcher

    A cursor is a position in the line: the byte before it ([None] at
    offset 0 only), the bytes from it on, and the captures made so
    far.  [run r s] lists the cursors at which a match of [r] started at
    [s] can end, in the order a backtracking matcher tries them: greedy
    quantifiers try the longest repetition first.  The head of the list
    is the match Go's leftmost-first semantics selects at that start. *)

Record cursor : Type := Cursor {
  prev : option ascii;
  rest : list ascii;
  caps : list (nat * list ascii)
}.

Definition advance (x : ascii) (t : list ascii) (s : cursor) : cursor :=
  Cursor (Some x) t (caps s).

(** All ways to read [p*] from [t], longest first. *)
Fixpoint greedy (p : ascii -> bool) (b : option ascii) (t : list ascii)
    (cs : list (nat * list ascii)) : list cursor :=
  match t with
  | x :: t' =>
      if p x then greedy p (Some x) t' cs ++ [Cursor b t cs]
      else [Cursor b t cs]
  | [] => [Cursor b t cs]
  end.

Definition is_word_at (o : option ascii) : bool :=
  match o with
  | Some c => is_word c
  | None => false
  end.

Definition next (s : cursor) : option ascii :=
  match rest s with
  | x :: _ => Some x
  | [] => None
  end.

(** The bytes read between cursor [s] and a later cursor [m]. *)
Definition consumed (s m : cursor) : list ascii :=
  firstn (length (rest s) - length (rest m)) (rest s).

Definition set_cap (n : nat) (s m : cursor) : cursor :=
  Cursor (prev m) (rest m) ((n, consumed s m) :: caps m).

Fixpoint run (r : regex) (s : cursor) : list cursor :=
  match r with
  | Empty => [s]
  | Lit c =>
      match rest s with
      | x :: t => if Ascii.eqb x c then [advance x t s] else []
      | [] => []
      end
  | Class p =>
      match rest s with
      | x :: t => if p x then [advance x t s] else []
      | [] => []
      end
  | Cat a b => flat_map (run b) (run a s)
  | Star p => greedy p (prev s) (rest s) (caps s)
  | Plus p =>
      match rest s with
      | x :: t => if p x then greedy p (Some x) t (caps s) else []
      | [] => []
      end
  | Cap n a => map (set_cap n s) (run a s)
  | BeginText =>
      match prev s with
      | None => [s]
      | Some _ => []
      end
  | WordBoundary =>
      if xorb (is_word_at (prev s)) (is_word_at (next s)) then [s] else []
  end.

(** Leftmost-first search: the first start offset, from the left, at
    which the pattern matches, and the preferred match there. *)
Fixpoint search (r : regex) (b : option ascii) (t : list ascii)
    : option cursor :=
  match run r (Cursor b t []) with
  | m :: _ => Some m
  | [] =>
      match t with
      | [] => None
      | x :: t' => search r (Some x) t'
      end
  end.

Fixpoint cap_lookup (n : nat) (cs : list (nat * list ascii)) : list ascii :=
  match cs with
  | [] => []
  | (k, w) :: cs' => if Nat.eqb k n then w else cap_lookup n cs'
  end.

(** [re.FindStringSubmatch(s)]: [None] is Go's nil slice; otherwise the
    slice holds the whole match at index 0 and capture [i] at index
    [i]. *)
Definition FindStringSubmatch (re : regex) (s : string)
    : option (list string) :=
  match search (Cap 0 re) None (list_ascii_of_string s) with
  | Some m =>
      Some (map (fun i => string_of_list_ascii (cap_lookup i (caps m)))
                (seq 0 (S (NumSubexp re))))
  | None => None
  end.

(** [matches[i]] *)
Definition idx (matches : list string) (i : nat) : string :=
  nth i matches EmptyString.

(** ** The four patterns *)

Definition bytes (s : string) : list ascii := list_ascii_of_string s.

(** The patterns are quoted below with [Q] standing for the double
    quote character.

    [^(\S+) \S+ \S+ \[([^\]]+)\] Q(\S+) (\S+) \S+Q (\d+) (\d+)] *)
Definition combinedLogPattern : regex :=
  Concat [ BeginText; Cap 1 (Plus non_space); Lit space; Plus non_space;
           Lit space; Plus non_space; Lit space; Lit lbracket;
           Cap 2 (Plus (not_char rbracket)); Lit rbracket; Lit space;
           Lit dquote; Cap 3 (Plus non_space); Lit space;
           Cap 4 (Plus non_space); Lit space; Plus non_space; Lit dquote;
           Lit space; Cap 5 (Plus is_digit); Lit space;
           Cap 6 (Plus is_digit) ].

(** [^(\S+) - - \[([^\]]+)\] Q(\S+) (\S+) [^Q]*Q (\d+) (\d+)] *)
Definition commonLogPattern : regex :=
  Concat [ BeginText; Cap 1 (Plus non_space); Str (bytes " - - ");
           Lit lbracket; Cap 2 (Plus (not_char rbracket)); Lit rbracket;
           Lit space; Lit dquote; Cap 3 (Plus non_space); Lit space;
           Cap 4 (Plus non_space); Lit space; Star (not_char dquote);
           Lit dquote; Lit space; Cap 5 (Plus is_digit); Lit space;
           Cap 6 (Plus is_digit) ].

(** [QstatusQ\s*:\s*(\d+)] *)
Definition jsonLogPattern : regex :=
  Concat [ Lit dquote; Str (bytes "status"); Lit dquote; Star is_space;
           Lit colon; Star is_space; Cap 1 (Plus is_digit) ].

(** [\b([45]\d{2})\b] *)
Definition statusCodePattern : regex :=
  Concat [ WordBoundary;
           Cap 1 (Concat [Class is_4_or_5; Class is_digit; Class is_digit]);
           WordBoundary ].

(** ** [strconv.Atoi] and [strconv.Itoa]

    Go's [int] is taken at 64 bits.  [Atoi] is [ParseInt(s, 10, 0)]: an
    optional sign, then decimal digits read by [ParseUint]; a byte that
    is not a digit, or no digit at all, gives the value 0 with a syntax
    error; a value that does not fit gives the nearest bound of the type
    with a range error.  (For short inputs Go's [Atoi] has a fast path;
    it returns what [ParseInt] returns.)  The value is the first
    component, the error ([None] is Go's nil) the second. *)

Definition intSize : Z := 64.
Definition maxInt : Z := 2 ^ (intSize - 1) - 1.
Definition maxUint64 : Z := 2 ^ 64 - 1.

Inductive NumError : Type := ErrSyntax | ErrRange.

Definition digit_val (c : ascii) : Z := code c - 48.

Fixpoint parseUint_loop (s : list ascii) (n : Z) : Z * option NumError :=
  match s with
  | [] => (n, None)
  | c :: t =>
      if is_digit c then
        let n1 := n * 10 + digit_val c in
        if maxUint64 <? n1 then (maxUint64, Some ErrRange)
        else parseUint_loop t n1
      else (0, Some ErrSyntax)
  end.

Definition ParseUint (s : list ascii) : Z * option NumError :=
  match s with
  | [] => (0, Some ErrSyntax)
  | _ => parseUint_loop s 0
  end.

Definition plus_sign : ascii := ascii_of_nat 43.

Definition ParseInt (s : list ascii) : Z * option NumError :=
  match s with
  | [] => (0, Some ErrSyntax)
  | c :: t =>
      let neg := Ascii.eqb c dash in
      let body := if Ascii.eqb c plus_sign || neg then t else s in
      match ParseUint body with
      | (_, Some ErrSyntax) => (0, Some ErrSyntax)
      | (un, _) =>
          let cutoff := 2 ^ (intSize - 1) in
          if negb neg && (cutoff <=? un) then (cutoff - 1, Some ErrRange)
          else if neg && (cutoff <? un) then (- cutoff, Some ErrRange)
          else (if neg then - un else un, None)
      end
  end.

Definition Atoi (s : string) : Z * option NumError := ParseInt (bytes s).

(** [strconv.Itoa]: the decimal representation, with a leading minus
    sign for a negative number. *)
Definition Itoa (n : Z) : string := NilZero.string_of_int (Z.to_int n).

(** ** Data model *)

Record LogEntry : Type := mkLogEntry {
  Timestamp : string;
  Method : string;
  Path : string;
  StatusCode : Z;
  ResponseSize : Z;
  UserAgent : string;
  PodName : string;
  ContainerName : string
}.

(** A [prometheus.CounterVec]: the series created so far, keyed by their
    label values, each with its count.  [WithLabelValues(lvs...)] creates
    the series at 0 when it is not there; [Inc] adds 1 to it. *)
Abbreviation CounterVec := (gmap (list string) nat).

Definition value_of (lvs : list string) (v : CounterVec) : nat :=
  default 0%nat (v !! lvs).

Definition Inc (lvs : list string) (v : CounterVec) : CounterVec :=
  <[lvs := S (value_of lvs v)]> v.

(** The exporter, with the fields the parser and the aggregator can
    reach: the configured namespace and the two counter families. *)
Record HTTPLogExporter : Type := mkExporter {
  namespace : string;
  httpErrorsTotal : CounterVec;
  httpRequestsTotal : CounterVec
}.

(** ** [parseLogLine] *)

Definition parseLogLine (e : HTTPLogExporter)
    (line podName containerName : string) : option LogEntry :=
  match FindStringSubmatch combinedLogPattern line with
  | Some matches =>
      let statusCode := fst (Atoi (idx matches 5)) in
      let responseSize := fst (Atoi (idx matches 6)) in
      Some {| Timestamp := idx matches 2;
              Method := idx matches 3;
              Path := idx matches 4;
              StatusCode := statusCode;
              ResponseSize := responseSize;
              UserAgent := EmptyString;
              PodName := podName;
              ContainerName := containerName |}
  | None =>
  match FindStringSubmatch commonLogPattern line with
  | Some matches =>
      let statusCode := fst (Atoi (idx matches 5)) in
      let responseSize := fst (Atoi (idx matches 6)) in
      Some {| Timestamp := idx matches 2;
              Method := idx matches 3;
              Path := idx matches 4;
              StatusCode := statusCode;
              ResponseSize := responseSize;
              UserAgent := EmptyString;
              PodName := podName;
              ContainerName := containerName |}
  | None =>
  match FindStringSubmatch jsonLogPattern line with
  | Some matches =>
      let statusCode := fst (Atoi (idx matches 1)) in
      Some {| Timestamp := EmptyString;
              Method := EmptyString;
              Path := EmptyString;
              StatusCode := statusCode;
              ResponseSize := 0;
              UserAgent := EmptyString;
              PodName := podName;
              ContainerName := containerName |}
  | None =>
  match FindStringSubmatch statusCodePattern line with
  | Some matches =>
      let statusCode := fst (Atoi (idx matches 1)) in
      Some {| Timestamp := EmptyString;
              Method := EmptyString;
              Path := EmptyString;
              StatusCode := statusCode;
              ResponseSize := 0;
              UserAgent := EmptyString;
              PodName := podName;
              ContainerName := containerName |}
  | None => None
  end end end end.

(** ** [updateMetrics] *)

Definition updateMetrics (e : HTTPLogExporter) (entry : LogEntry)
    : HTTPLogExporter :=
  let statusCodeStr := Itoa (StatusCode entry) in
  let requests :=
    Inc [namespace e; PodName entry; ContainerName entry; statusCodeStr]
        (httpRequestsTotal e) in
  let errors :=
    if (400 <=? StatusCode entry) && (StatusCode entry <? 500) then
      Inc [namespace e; PodName entry; ContainerName entry; statusCodeStr;
           "4xx"%string] (httpErrorsTotal e)
    else if (500 <=? StatusCode entry) && (StatusCode entry <? 600) then
      Inc [namespace e; PodName entry; ContainerName entry; statusCodeStr;
           "5xx"%string] (httpErrorsTotal e)
    else httpErrorsTotal e in
  {| namespace := namespace e;
     httpErrorsTotal := errors;
     httpRequestsTotal := requests |}.

(** The body of the scanning loop of [scrapeContainerLogs]: a line is
    parsed, and the counters are updated only when an entry comes
    back. *)
Definition processLine (e : HTTPLogExporter)
    (line podName containerName : string) : HTTPLogExporter :=
  match parseLogLine e line podName containerName with
  | Some entry => updateMetrics e entry
  | None => e
  end.

(** ** Configuration

    The process environment is a finite map from names to values;
    [os.Getenv] gives the empty string for a name that is not set. *)
Abbreviation Env := (gmap string string).

Definition Getenv (env : Env) (key : string) : string :=
  default EmptyString (env !! key).

Definition defaultNamespace : string := "default".
Definition defaultLogLines : Z := 100.
Definition namespaceEnvVar : string := "TARGET_NAMESPACE".
Definition scrapeIntervalEnvVar : string := "SCRAPE_INTERVAL_SECONDS".
Definition logLinesEnvVar : string := "LOG_LINES_LIMIT".
Definition podSelectorEnvVar : string := "POD_SELECTOR".

(** A [time.Duration] is an [int64] count of nanoseconds; [wrap64] is
    the result of [int64] arithmetic. *)
Definition Second : Z := 1000000000.

Definition wrap64 (x : Z) : Z := (x + 2 ^ 63) mod 2 ^ 64 - 2 ^ 63.

Definition defaultScrapeInterval : Z := 30 * Second.

Definition getEnvOrDefault (env : Env) (envVar defaultValue : string)
    : string :=
  let value := Getenv env envVar in
  if negb (String.eqb value EmptyString) then value else defaultValue.

Definition parseScrapeInterval (env : Env) : Z :=
  let intervalStr := Getenv env scrapeIntervalEnvVar in
  if negb (String.eqb intervalStr EmptyString) then
    match Atoi intervalStr with
    | (seconds, None) => wrap64 (seconds * Second)
    | (_, Some _) => defaultScrapeInterval
    end
  else defaultScrapeInterval.

(** [strconv.ParseInt(s, 10, 64)] is [ParseInt] above, the size of [int]
    being 64 bits. *)
Definition parseLogLines (env : Env) : Z :=
  let linesStr := Getenv env logLinesEnvVar in
  if negb (String.eqb linesStr EmptyString) then
    match ParseInt (bytes linesStr) with
    | (lines, None) => lines
    | (_, Some _) => defaultLogLines
    end
  else defaultLogLines.

(** ** Scraping

    The scanning loop of [scrapeContainerLogs] over the lines the scanner
    delivers.  (The loop also counts the lines, for a log message
    only.) *)
Definition processLines (e : HTTPLogExporter) (lines : list string)
    (podName containerName : string) : HTTPLogExporter :=
  fold_left (fun e line => processLine e line podName containerName) lines e.

(** What the cluster answers.  A pod has a name, a phase and containers.
    Asking for the logs of a container either fails at once, or gives a
    stream from which the scanner reads some lines and then ends, or
    stops on a read error. *)
Record Pod : Type := mkPod {
  Name : string;
  Phase : string;
  Containers : list string
}.

Definition PodRunning : string := "Running".

Inductive LogStream : Type :=
| StreamFailed
| Streamed (lines : list string) (readFailed : bool).

(** The calls the scraper makes: [Pods(ns).List] with a label selector
    ([None] when the call fails), [GetLogs(pod, opts).Stream] with the
    container and the tail limit, and the clock [SetToCurrentTime]
    reads. *)
Record Cluster : Type := mkCluster {
  List_ : string -> string -> option (list Pod);
  Stream : string -> string -> string -> Z -> LogStream;
  Now : string -> string -> Z
}.

(** The exporter with its remaining fields. *)
Record Scraper : Type := mkScraper {
  exporter : HTTPLogExporter;
  logLines : Z;
  podSelector : string;
  lastScrapeTime : gmap (list string) Z;
  scrapeErrors : CounterVec
}.

Inductive ScrapeError : Type :=
| ErrGetLogs
| ErrReadLogs
| ErrListPods.

Definition scrapeContainerLogs (k : Cluster) (s : Scraper)
    (podName containerName : string) : Scraper * option ScrapeError :=
  let ns := namespace (exporter s) in
  match Stream k ns podName containerName (logLines s) with
  | StreamFailed => (s, Some ErrGetLogs)
  | Streamed lines readFailed =>
      let e := processLines (exporter s) lines podName containerName in
      if readFailed then
        ({| exporter := e; logLines := logLines s;
            podSelector := podSelector s;
            lastScrapeTime := lastScrapeTime s;
            scrapeErrors := scrapeErrors s |}, Some ErrReadLogs)
      else
        ({| exporter := e; logLines := logLines s;
            podSelector := podSelector s;
            lastScrapeTime :=
              <[ [ns; podName; containerName] := Now k podName containerName ]>
                (lastScrapeTime s);
            scrapeErrors := scrapeErrors s |}, None)
  end.

(** The body of the loop over the containers of a pod. *)
Definition scrapeContainer (k : Cluster) (podName : string)
    (s : Scraper) (containerName : string) : Scraper :=
  match scrapeContainerLogs k s podName containerName with
  | (s', Some _) =>
      {| exporter := exporter s'; logLines := logLines s';
         podSelector := podSelector s';
         lastScrapeTime := lastScrapeTime s';
         scrapeErrors :=
           Inc [namespace (exporter s'); podName; containerName;
                "scrape_failed"%string] (scrapeErrors s') |}
  | (s', None) => s'
  end.

(** The body of the loop over the pods. *)
Definition scrapePod (k : Cluster) (s : Scraper) (pod : Pod) : Scraper :=
  if negb (String.eqb (Phase pod) PodRunning) then s
  else fold_left (scrapeContainer k (Name pod)) (Containers pod) s.

Definition scrapeLogs (k : Cluster) (s : Scraper)
    : Scraper * option ScrapeError :=
  match List_ k (namespace (exporter s)) (podSelector s) with
  | None => (s, Some ErrListPods)
  | Some pods => (fold_left (scrapePod k) pods s, None)
  end.

(** ** Sample inputs

    Sample lines are written with an apostrophe wherever the line has a
    double quote; [quoted] puts the double quotes in.  The exporter is
    the one of [TestUpdateMetrics], its counter families empty. *)
Fixpoint quoted (s : string) : string :=
  match s with
  | EmptyString => EmptyString
  | String c s' =>
      String (if Ascii.eqb c (ascii_of_nat 39) then dquote else c) (quoted s')
  end.

Definition test_exporter : HTTPLogExporter :=
  {| namespace := "test-namespace";
     httpErrorsTotal := ∅;
     httpRequestsTotal := ∅ |}.

(** An access log line in the combined format, followed by a status
    key-value pair. *)
Definition line_status_key_in_access_log : string :=
  quoted ("127.0.0.1 - - [25/Dec/2019:01:17:21 +0000] " +:+
          "'GET /api/health HTTP/1.1' 200 612 {'status':500}").

(** Key-value lines: a status of twenty digits, one of four digits, and
    one with white space around the colon. *)
Definition line_json_huge : string :=
  quoted "{'status':99999999999999999999}".

Definition line_json_1234 : string := quoted "{'status':1234}".

Definition line_json_500 : string :=
  quoted "{'status' : 500,'error':'Internal error'}".

(** Free text. *)
Definition line_order_id : string := "order 45012 shipped".
Definition line_unquoted_key : string := "status: 200".
Definition line_503 : string := "Service unavailable: returning 503 status".
Definition line_200 : string := "Request successful with status 200".
Definition line_two_tokens : string :=
  "upstream returned 502, retry returned 404".

(** What the combined pattern and the key-value pattern return on a
    sample line. *)
Definition combined_sample : list string :=
  Eval vm_compute in
    match FindStringSubmatch combinedLogPattern line_status_key_in_access_log
    with Some ms => ms | None => [] end.

Definition json_sample (line : string) : list string :=
  match FindStringSubmatch jsonLogPattern line with
  | Some ms => ms
  | None => []
  end.

(** A scraper with empty metric families, and a cluster of three pods:
    one Running with a container that streams two lines and one whose
    stream cannot be opened, one that has Succeeded, and one Running
    whose stream breaks after its first line. *)
Definition test_scraper : Scraper :=
  {| exporter := test_exporter;
     logLines := 100;
     podSelector := "";
     lastScrapeTime := ∅;
     scrapeErrors := ∅ |}.

Definition test_pods : list Pod :=
  [ mkPod "web" "Running" ["nginx"; "sidecar"]%string;
    mkPod "job" "Succeeded" ["main"]%string;
    mkPod "api" "Running" ["app"]%string ].

Definition test_cluster : Cluster :=
  {| List_ := fun ns selector =>
       if String.eqb ns "test-namespace" then Some test_pods else None;
     Stream := fun ns podName containerName tail =>
       if String.eqb containerName "nginx"
       then Streamed [line_503; line_200] false
       else if String.eqb containerName "sidecar" then StreamFailed
       else Streamed [line_two_tokens] true;
     Now := fun podName containerName => 1700000000 |}.

Definition test_env : Env :=
  {[ scrapeIntervalEnvVar := "60"%string; logLinesEnvVar := "-10"%string ]}.

(** A cluster whose only pod has finished. *)
Definition idle_cluster : Cluster :=
  {| List_ := fun ns selector =>
       Some [mkPod "job" "Succeeded" ["main"]%string];
     Stream := fun ns podName containerName tail =>
       Streamed [line_503] false;
     Now := fun podName containerName => 1700000000 |}.

(** ** Vocabulary of the statements

    The definitions below describe lines and results; they model no
    code.

    [before b w] is the byte just before the position reached after
    reading [w] from a position whose previous byte is [b]. *)
Fixpoint before (b : option ascii) (w : list ascii) : option ascii :=
  match w with
  | [] => b
  | x :: w' => before (Some x) w'
  end.

(** A standalone status token starts at the cursor: three bytes, the
    first 4 or 5 and the other two digits, with no word character just
    before and none just after. *)
Definition standalone_token (b : option ascii) (t : list ascii)
    : option (list ascii) :=
  match t with
  | c1 :: c2 :: c3 :: t' =>
      if negb (is_word_at b) && is_4_or_5 c1 && is_digit c2 && is_digit c3
         && negb (is_word_at (List.head t'))
      then Some [c1; c2; c3] else None
  | _ => None
  end.

(** The standalone status tokens of a line, from left to right. *)
Fixpoint tokens (b : option ascii) (t : list ascii) : list (list ascii) :=
  match t with
  | [] => []
  | x :: t' =>
      match standalone_token b t with
      | Some tok => tok :: tokens (Some x) t'
      | None => tokens (Some x) t'
      end
  end.

(** The number three decimal digits denote. *)
Definition token_value (tok : list ascii) : Z :=
  fold_left (fun n c => n * 10 + digit_val c) tok 0.

(** The entry strategies 3 and 4 build: only the status code and the
    source identity are populated. *)
Definition status_only (code : Z) (podName containerName : string) : LogEntry :=
  {| Timestamp := EmptyString; Method := EmptyString; Path := EmptyString;
     StatusCode := code; ResponseSize := 0; UserAgent := EmptyString;
     PodName := podName; ContainerName := containerName |}.


(** A quoted status key, a colon with optional white space around it,
    and a decimal number; and a line that holds one somewhere. *)
Definition status_pair (ws1 ws2 ds : list ascii) : list ascii :=
  [dquote] ++ bytes "status" ++ [dquote] ++ ws1 ++ [colon] ++ ws2 ++ ds.

Definition has_status_pair (line : list ascii) : Prop :=
  exists pre ws1 ws2 ds post,
    line = pre ++ status_pair ws1 ws2 ds ++ post /\
    forallb is_space ws1 = true /\ forallb is_space ws2 = true /\
    ds <> [] /\ forallb is_digit ds = true.

(** The number a string of digits denotes, read from the left. *)
Definition digits_value (w : list ascii) (n : Z) : Z :=
  fold_left (fun n c => n * 10 + digit_val c) w n.

(** A decimal numeral: an optional sign and at least one digit; and the
    integer it denotes. *)
Definition is_numeral (w : list ascii) : bool :=
  match w with
  | [] => false
  | c :: t =>
      if Ascii.eqb c plus_sign || Ascii.eqb c dash
      then negb (Nat.eqb (length t) 0) && forallb is_digit t
      else forallb is_digit w
  end.

Definition numeral_value (w : list ascii) : Z :=
  match w with
  | [] => 0
  | c :: t =>
      if Ascii.eqb c dash then - digits_value t 0
      else if Ascii.eqb c plus_sign then digits_value t 0
      else digits_value w 0
  end.

(** The numerals [Atoi] and [ParseInt(s, 10, 64)] accept: those whose
    integer fits 64 bits. *)
Definition fits_int (w : list ascii) : bool :=
  is_numeral w && (- maxInt - 1 <=? numeral_value w)
  && (numeral_value w <=? maxInt).

(** The series an entry is counted in: its request series, and its
    error series when its status code is an error code. *)
Definition request_series (ns : string) (entry : LogEntry) : list string :=
  [ns; PodName entry; ContainerName entry; Itoa (StatusCode entry)].

Definition error_class (code : Z) : option string :=
  if (400 <=? code) && (code <? 500) then Some "4xx"%string
  else if (500 <=? code) && (code <? 600) then Some "5xx"%string
  else None.

Definition error_series (ns : string) (entry : LogEntry)
    : option (list string) :=
  match error_class (StatusCode entry) with
  | Some cls => Some (request_series ns entry ++ [cls])
  | None => None
  end.

(** The entries a batch of lines gives, in order. *)
Definition parsed (e : HTTPLogExporter) (lines : list string)
    (podName containerName : string) : list LogEntry :=
  omap (fun line => parseLogLine e line podName containerName) lines.

(** How many of the entries are counted in a series. *)
Definition requests_in (ns : string) (lvs : list string)
    (entries : list LogEntry) : nat :=
  length (List.filter
            (fun entry => bool_decide (request_series ns entry = lvs))
            entries).

Definition errors_in (ns : string) (lvs : list string)
    (entries : list LogEntry) : nat :=
  length (List.filter
            (fun entry => bool_decide (error_series ns entry = Some lvs))
            entries).

(** No error series counts more than the request series it refines. *)
Definition errors_within_requests (e : HTTPLogExporter) : Prop :=
  forall lvs cls,
    (value_of (lvs ++ [cls]) (httpErrorsTotal e)
     <= value_of lvs (httpRequestsTotal e))%nat.

(** Every error series that counts something is that of an error code
    with its class, in the namespace of the exporter, and every error
    code has been counted as often as an error as it has as a request. *)
Definition consistent (e : HTTPLogExporter) : Prop :=
  (forall lvs, (0 < value_of lvs (httpErrorsTotal e))%nat ->
     exists entry, error_series (namespace e) entry = Some lvs) /\
  (forall entry lvs, error_series (namespace e) entry = Some lvs ->
     value_of lvs (httpErrorsTotal e) =
     value_of (request_series (namespace e) entry) (httpRequestsTotal e)).

(** The containers a scrape visits, in order: those of the pods of the
    listing whose phase is Running, each with the name of its pod. *)
Definition targets (pods : list Pod) : list (string * string) :=
  flat_map (fun pod =>
              if String.eqb (Phase pod) PodRunning
              then map (pair (Name pod)) (Containers pod) else [])
           pods.

(** What the cluster answers for a container during a scrape that
    starts in state [s]; whether scraping the container fails; and the
    lines read from it. *)
Definition stream_of (k : Cluster) (s : Scraper) (t : string * string)
    : LogStream :=
  Stream k (namespace (exporter s)) (fst t) (snd t) (logLines s).

Definition scrape_fails (k : Cluster) (s : Scraper) (t : string * string)
    : bool :=
  match stream_of k s t with
  | StreamFailed => true
  | Streamed _ readFailed => readFailed
  end.

Definition lines_read (k : Cluster) (s : Scraper) (t : string * string)
    : list string :=
  match stream_of k s t with
  | StreamFailed => []
  | Streamed lines _ => lines
  end.

(** The entries of all the lines a scrape reads. *)
Definition entries_read (k : Cluster) (s : Scraper)
    (ts : list (string * string)) : list LogEntry :=
  flat_map (fun t => parsed (exporter s) (lines_read k s t) (fst t) (snd t))
           ts.

Definition failure_series (ns : string) (t : string * string)
    : list string :=
  [ns; fst t; snd t; "scrape_failed"%string].

Definition time_series (ns : string) (t : string * string) : list string :=
  [ns; fst t; snd t].

(** The loops of [scrapeLogs] as one loop over the containers visited. *)
Definition scrapeTargets (k : Cluster) (s : Scraper)
    (ts : list (string * string)) : Scraper :=
  fold_left (fun s t => scrapeContainer k (fst t) s (snd t)) ts s.

(** The capture indices of a pattern, and [captures n a r]: group [n]
    of [r] is the sub-pattern [a], and no group after it in [r] has the
    same index. *)
Fixpoint groups (r : regex) : list nat :=
  match r with
  | Cat a b => groups a ++ groups b
  | Cap n a => n :: groups a
  | _ => []
  end.

Fixpoint captures (n : nat) (a : regex) (r : regex) : Prop :=
  match r with
  | Cat x y => (captures n a x /\ ~ In n (groups y)) \/ captures n a y
  | Cap k x => (k = n /\ x = a) \/ (k <> n /\ captures n a x)
  | _ => False
  end.

(** * Properties of the matcher *)

Section Matcher.

Implicit Types (p : ascii -> bool) (b : option ascii) (t w : list ascii).
Implicit Types (s m k : cursor) (r a : regex).

Lemma before_app b u v : before b (u ++ v) = before (before b u) v.
Proof. revert b; induction u as [|x u IH]; intros b; simpl; auto. Qed.

Lemma greedy_In p b t cs m :
  In m (greedy p b t cs) <->
  exists w, forallb p w = true /\ t = w ++ rest m /\
            prev m = before b w /\ caps m = cs.
Proof.
  revert b; induction t as [|x t IH]; intros b; simpl.
  - split.
    + intros [<-|[]]. exists []. auto.
    + intros (w & _ & Ht & Hp & Hc). destruct w; [|discriminate].
      destruct m; simpl in *; subst; auto.
  - destruct (p x) eqn:Hx.
    + rewrite in_app_iff, IH. split.
      * intros [(w & Hw & Ht & Hp & Hc)|[<-|[]]].
        -- exists (x :: w). simpl. rewrite Hx, Hw, Ht. auto.
        -- exists []. auto.
      * intros (w & Hw & Ht & Hp & Hc). destruct w as [|y w]; simpl in *.
        -- right. left. destruct m; simpl in *; subst; auto.
        -- left. injection Ht as -> Ht.
           apply andb_prop in Hw as [_ Hw]. exists w. auto.
    + split.
      * intros [<-|[]]. exists []. auto.
      * intros (w & Hw & Ht & Hp & Hc). destruct w as [|y w]; simpl in *.
        -- left. destruct m; simpl in *; subst; auto.
        -- injection Ht as -> Ht. rewrite Hx in Hw. discriminate.
Qed.

Lemma run_Cat a1 a2 s m :
  In m (run (Cat a1 a2) s) <-> exists k, In k (run a1 s) /\ In m (run a2 k).
Proof. simpl. apply in_flat_map. Qed.

Lemma run_Lit c s m :
  In m (run (Lit c) s) <->
  rest s = c :: rest m /\ prev m = Some c /\ caps m = caps s.
Proof.
  simpl. destruct (rest s) as [|x t]; simpl.
  { split; [tauto|]. intros (Ht & _). discriminate. }
  destruct (Ascii.eqb_spec x c) as [->|Hne]; simpl.
  - split.
    + intros [<-|[]]. auto.
    + intros (Ht & Hp & Hc). left. injection Ht as Ht.
      destruct m; simpl in *; subst; auto.
  - split; [tauto|]. intros (Ht & _). congruence.
Qed.

Lemma run_Class p s m :
  In m (run (Class p) s) <->
  exists x, p x = true /\ rest s = x :: rest m /\ prev m = Some x /\
            caps m = caps s.
Proof.
  simpl. destruct (rest s) as [|x t]; simpl.
  - split; [tauto|]. intros (y & _ & Ht & _). discriminate.
  - destruct (p x) eqn:Hx; simpl.
    + split.
      * intros [<-|[]]. exists x. auto.
      * intros (y & _ & Ht & Hp & Hc). left. injection Ht as Hy Ht.
        destruct m; simpl in *; subst; auto.
    + split; [tauto|]. intros (y & Hy & Ht & _). injection Ht as Hxy _.
      congruence.
Qed.

Lemma run_Star p s m :
  In m (run (Star p) s) <->
  exists w, forallb p w = true /\ rest s = w ++ rest m /\
            prev m = before (prev s) w /\ caps m = caps s.
Proof. simpl. apply greedy_In. Qed.

Lemma run_Plus p s m :
  In m (run (Plus p) s) <->
  exists w, w <> [] /\ forallb p w = true /\ rest s = w ++ rest m /\
            prev m = before (prev s) w /\ caps m = caps s.
Proof.
  simpl. destruct (rest s) as [|x t]; simpl.
  - split; [tauto|]. intros (w & Hne & _ & Ht & _).
    destruct w; [congruence|discriminate].
  - destruct (p x) eqn:Hx; simpl.
    + rewrite greedy_In. split.
      * intros (w & Hw & Ht & Hp & Hc). exists (x :: w). simpl.
        rewrite Hx, Hw, Ht. auto.
      * intros (w & Hne & Hw & Ht & Hp & Hc).
        destruct w as [|y w]; [congruence|]. simpl in *.
        injection Ht as <- Ht. apply andb_prop in Hw as [_ Hw].
        exists w. auto.
    + split; [tauto|]. intros (w & Hne & Hw & Ht & _).
      destruct w as [|y w]; [congruence|]. simpl in *.
      injection Ht as <- Ht. rewrite Hx in Hw. discriminate.
Qed.

Lemma run_Cap n a s m :
  In m (run (Cap n a) s) <-> exists k, In k (run a s) /\ m = set_cap n s k.
Proof.
  simpl. rewrite in_map_iff. split; intros (k & H1 & H2); exists k; auto.
Qed.

Lemma run_BeginText s m :
  In m (run BeginText s) <-> prev s = None /\ m = s.
Proof.
  simpl. destruct (prev s); simpl; intuition (auto; discriminate).
Qed.

Lemma run_WordBoundary s m :
  In m (run WordBoundary s) <->
  xorb (is_word_at (prev s)) (is_word_at (next s)) = true /\ m = s.
Proof.
  simpl. destruct (xorb _ _); simpl; intuition (auto; discriminate).
Qed.

(** A match reads a word of the line and moves the cursor past it. *)
Lemma run_reads r : forall s m,
  In m (run r s) ->
  exists w, rest s = w ++ rest m /\ prev m = before (prev s) w.
Proof.
  induction r; intros s m H.
  - destruct H as [<-|[]]. exists []. auto.
  - apply run_Lit in H as (Ht & Hp & _). exists [c]. auto.
  - apply run_Class in H as (x & _ & Ht & Hp & _). exists [x]. auto.
  - apply run_Cat in H as (k & H1 & H2).
    apply IHr1 in H1 as (w1 & Ht1 & Hp1).
    apply IHr2 in H2 as (w2 & Ht2 & Hp2).
    exists (w1 ++ w2). rewrite before_app, <- Hp1, <- app_assoc, <- Ht2. auto.
  - apply run_Star in H as (w & _ & Ht & Hp & _). eauto.
  - apply run_Plus in H as (w & _ & _ & Ht & Hp & _). eauto.
  - apply run_Cap in H as (k & H1 & ->). simpl. auto.
  - apply run_BeginText in H as (_ & ->). exists []. auto.
  - apply run_WordBoundary in H as (_ & ->). exists []. auto.
Qed.

Lemma consumed_app s m w : rest s = w ++ rest m -> consumed s m = w.
Proof.
  intros H. unfold consumed. rewrite H, length_app.
  replace (length w + length (rest m) - length (rest m))%nat
    with (length w) by lia.
  rewrite firstn_app, Nat.sub_diag, firstn_all. simpl. apply app_nil_r.
Qed.

Lemma run_caps_frame r : forall s m n,
  In m (run r s) -> ~ In n (groups r) ->
  cap_lookup n (caps m) = cap_lookup n (caps s).
Proof.
  induction r; intros s m i H Hi; simpl in Hi.
  - destruct H as [<-|[]]. auto.
  - apply run_Lit in H as (_ & _ & ->). auto.
  - apply run_Class in H as (x & _ & _ & _ & ->). auto.
  - apply run_Cat in H as (k & H1 & H2). rewrite in_app_iff in Hi.
    rewrite (IHr2 _ _ i H2), (IHr1 _ _ i H1); tauto.
  - apply run_Star in H as (w & _ & _ & _ & ->). auto.
  - apply run_Plus in H as (w & _ & _ & _ & _ & ->). auto.
  - apply run_Cap in H as (k & H1 & ->). simpl.
    destruct (Nat.eqb_spec n i) as [->|Hne]; [tauto|].
    apply IHr; tauto.
  - apply run_BeginText in H as (_ & ->). auto.
  - apply run_WordBoundary in H as (_ & ->). auto.
Qed.

(** What a group holds after a match is a word its sub-pattern read. *)
Lemma capture_sound r : forall n a s m,
  captures n a r -> In m (run r s) ->
  exists s1 m1, In m1 (run a s1) /\ cap_lookup n (caps m) = consumed s1 m1.
Proof.
  induction r; intros i a s m Hc H; simpl in Hc; try contradiction.
  - apply run_Cat in H as (k & H1 & H2). destruct Hc as [[Hc Hi]|Hc].
    + destruct (IHr1 _ _ _ _ Hc H1) as (s1 & m1 & Hm & Heq).
      exists s1, m1. split; [auto|].
      rewrite (run_caps_frame _ _ _ _ H2 Hi). auto.
    + eauto.
  - apply run_Cap in H as (k & H1 & ->). simpl.
    destruct Hc as [[-> ->]|[Hne Hc]].
    + rewrite Nat.eqb_refl. eauto.
    + destruct (Nat.eqb_spec n i) as [->|_]; [tauto|]. eauto.
Qed.

Lemma capture_plus r n p s m :
  captures n (Plus p) r -> In m (run r s) ->
  cap_lookup n (caps m) <> [] /\ forallb p (cap_lookup n (caps m)) = true.
Proof.
  intros Hc H. destruct (capture_sound _ _ _ _ _ Hc H) as (s1 & m1 & Hm & ->).
  apply run_Plus in Hm as (w & Hne & Hw & Ht & _).
  rewrite (consumed_app _ _ _ Ht). auto.
Qed.

(** Building a match, and taking one apart. *)
Lemma In_Cat a1 a2 s k m :
  In k (run a1 s) -> In m (run a2 k) -> In m (run (Cat a1 a2) s).
Proof. intros. apply run_Cat. eauto. Qed.

Lemma In_Lit c b t cs :
  In (Cursor (Some c) t cs) (run (Lit c) (Cursor b (c :: t) cs)).
Proof. apply run_Lit. auto. Qed.

Lemma In_Empty s : In s (run Empty s).
Proof. simpl. auto. Qed.

Lemma In_Str w : forall b t cs,
  In (Cursor (before b w) t cs) (run (Str w) (Cursor b (w ++ t) cs)).
Proof.
  induction w as [|c w IH]; intros b t cs; cbn [Str].
  - apply In_Empty.
  - eapply In_Cat; [apply In_Lit|]. apply IH.
Qed.

Lemma In_Star p w b t cs :
  forallb p w = true ->
  In (Cursor (before b w) t cs) (run (Star p) (Cursor b (w ++ t) cs)).
Proof. intros. apply run_Star. exists w. auto. Qed.

Lemma In_Plus p w b t cs :
  w <> [] -> forallb p w = true ->
  In (Cursor (before b w) t cs) (run (Plus p) (Cursor b (w ++ t) cs)).
Proof. intros. apply run_Plus. exists w. auto. Qed.

Lemma In_Cap n a s k :
  In k (run a s) -> In (set_cap n s k) (run (Cap n a) s).
Proof. intros. apply run_Cap. eauto. Qed.


(** ** Search *)

Lemma search_unfold r b t :
  search r b t =
  match run r (Cursor b t []) with
  | m :: _ => Some m
  | [] => match t with
          | [] => None
          | x :: t' => search r (Some x) t'
          end
  end.
Proof. destruct t; reflexivity. Qed.

Lemma search_sound r : forall t b m,
  search r b t = Some m ->
  exists pre t', t = pre ++ t' /\ In m (run r (Cursor (before b pre) t' [])).
Proof.
  induction t as [|x t IH]; intros b m; simpl.
  - destruct (run r (Cursor b [] [])) as [|m' l] eqn:E; [discriminate|].
    intros [= <-]. exists [], []. simpl. rewrite E. simpl. auto.
  - destruct (run r (Cursor b (x :: t) [])) as [|m' l] eqn:E.
    + intros H. apply IH in H as (pre & t' & -> & H).
      exists (x :: pre), t'. auto.
    + intros [= <-]. exists [], (x :: t). simpl. rewrite E. simpl. auto.
Qed.

(** The search stops at the first offset where the pattern matches. *)
Lemma search_first r : forall pre b t' m l,
  (forall u v, pre = u ++ v -> v <> [] ->
     run r (Cursor (before b u) (v ++ t') []) = []) ->
  run r (Cursor (before b pre) t' []) = m :: l ->
  search r b (pre ++ t') = Some m.
Proof.
  induction pre as [|x pre IH]; intros b t' m l Hno Hm; simpl in *.
  - destruct t'; simpl; rewrite Hm; auto.
  - assert (H0 := Hno [] (x :: pre) eq_refl ltac:(discriminate)).
    simpl in H0. rewrite H0.
    apply (IH (Some x) t' m l); [|auto].
    intros u v -> Hv. apply (Hno (x :: u) v); auto.
Qed.

Lemma search_complete r : forall pre b t',
  run r (Cursor (before b pre) t' []) <> [] ->
  search r b (pre ++ t') <> None.
Proof.
  induction pre as [|x pre IH]; intros b t' Hm; simpl in *.
  - destruct t'; simpl; destruct (run r _); congruence.
  - destruct (run r (Cursor b _ [])); [|discriminate]. apply IH. auto.
Qed.

Lemma search_none r : forall t b,
  (forall u v, t = u ++ v -> run r (Cursor (before b u) v []) = []) ->
  search r b t = None.
Proof.
  induction t as [|x t IH]; intros b H; simpl.
  - assert (H0 := H [] [] eq_refl). simpl in H0. rewrite H0. auto.
  - assert (H0 := H [] (x :: t) eq_refl). simpl in H0. rewrite H0. apply IH.
    intros u v ->. apply (H (x :: u) v). auto.
Qed.

(** ** [FindStringSubmatch] *)

Lemma idx_Find re line ms :
  FindStringSubmatch re line = Some ms ->
  exists m, search (Cap 0 re) None (bytes line) = Some m /\
    forall i, (i <= NumSubexp re)%nat ->
      idx ms i = string_of_list_ascii (cap_lookup i (caps m)).
Proof.
  unfold FindStringSubmatch. fold (bytes line).
  destruct (search _ _ _) as [m|]; [|discriminate]. intros [= <-].
  exists m. split; [reflexivity|]. intros i Hi. unfold idx.
  set (f := fun i => string_of_list_ascii (cap_lookup i (caps m))).
  change (nth i (map f (seq 0 (S (NumSubexp re)))) EmptyString = f i).
  rewrite (nth_indep _ EmptyString (f 0%nat))
    by (rewrite length_map, length_seq; lia).
  rewrite map_nth, seq_nth by lia. reflexivity.
Qed.

Lemma Find_plus re line ms n p :
  FindStringSubmatch re line = Some ms ->
  captures n (Plus p) (Cap 0 re) -> (n <= NumSubexp re)%nat ->
  exists w, idx ms n = string_of_list_ascii w /\ w <> [] /\
            forallb p w = true.
Proof.
  intros H Hc Hn. apply idx_Find in H as (m & Hs & Hi).
  apply search_sound in Hs as (pre & t' & _ & Hm).
  destruct (capture_plus _ _ _ _ _ Hc Hm) as [Hne Hw].
  exists (cap_lookup n (caps m)). rewrite Hi by auto. auto.
Qed.

End Matcher.

(** Takes apart the hypotheses that say a pattern matched. *)
Ltac inv_run :=
  repeat match goal with
  | H : In _ (run (Cat _ _) _) |- _ =>
      let k := fresh "k" in apply run_Cat in H as (k & ? & ?)
  | H : In _ (run (Lit _) _) |- _ => apply run_Lit in H as (? & ? & ?)
  | H : In _ (run Empty _) |- _ => destruct H as [<-|[]]
  | H : In _ (run (Star _) _) |- _ =>
      let w := fresh "w" in apply run_Star in H as (w & ? & ? & ? & ?)
  | H : In _ (run (Plus _) _) |- _ =>
      let w := fresh "w" in apply run_Plus in H as (w & ? & ? & ? & ? & ?)
  | H : In _ (run (Cap _ _) _) |- _ =>
      let k := fresh "k" in apply run_Cap in H as (k & ? & ?)
  end.

(** * Character classes and conversions *)

Section Conversions.

Lemma in_range_spec lo hi c : in_range lo hi c = true <-> lo <= code c <= hi.
Proof. unfold in_range. rewrite andb_true_iff, !Z.leb_le. tauto. Qed.

Lemma is_digit_word c : is_digit c = true -> is_word c = true.
Proof. unfold is_digit, is_word. intros ->. reflexivity. Qed.

Lemma is_4_or_5_digit c : is_4_or_5 c = true -> is_digit c = true.
Proof.
  unfold is_4_or_5, is_digit.
  rewrite orb_true_iff, !Z.eqb_eq, in_range_spec. lia.
Qed.

Lemma is_digit_spec c : is_digit c = true <-> 0 <= digit_val c <= 9.
Proof. unfold is_digit, digit_val. rewrite in_range_spec. lia. Qed.

Lemma is_digit_not_sign c :
  is_digit c = true -> Ascii.eqb c plus_sign || Ascii.eqb c dash = false.
Proof.
  intros H. destruct (Ascii.eqb_spec c plus_sign) as [->|_];
    [discriminate|].
  destruct (Ascii.eqb_spec c dash) as [->|_]; [discriminate|reflexivity].
Qed.

Lemma maxUint64_eq : maxUint64 = 18446744073709551615.
Proof. reflexivity. Qed.

Lemma maxInt_eq : maxInt = 9223372036854775807.
Proof. reflexivity. Qed.

Lemma parseUint_loop_digits w : forall n,
  forallb is_digit w = true -> 0 <= n <= maxUint64 ->
  (snd (parseUint_loop w n) = None /\ 0 <= fst (parseUint_loop w n) <= maxUint64)
  \/ parseUint_loop w n = (maxUint64, Some ErrRange).
Proof.
  induction w as [|c w IH]; intros n Hw Hn; simpl in *.
  - left. auto.
  - apply andb_prop in Hw as [Hc Hw]. rewrite Hc.
    apply is_digit_spec in Hc.
    destruct (Z.ltb_spec maxUint64 (n * 10 + digit_val c)); [auto|].
    apply IH; [auto|lia].
Qed.

Lemma ParseInt_digits w :
  w <> [] -> forallb is_digit w = true ->
  (snd (ParseInt w) = None /\ 0 <= fst (ParseInt w) <= maxInt)
  \/ ParseInt w = (maxInt, Some ErrRange).
Proof.
  intros Hne Hw. destruct w as [|c w]; [congruence|].
  unfold ParseInt, ParseUint.
  assert (Hc : is_digit c = true) by (simpl in Hw; apply andb_prop in Hw; tauto).
  pose proof (is_digit_not_sign c Hc) as Hs. rewrite Hs.
  apply orb_false_elim in Hs as [_ ->]. cbn [negb andb].
  change (2 ^ (intSize - 1)) with (maxInt + 1).
  assert (H0 : 0 <= 0 <= maxUint64) by (rewrite maxUint64_eq; lia).
  destruct (parseUint_loop_digits (c :: w) 0 Hw H0) as [[He Hv]|E].
  - destruct (parseUint_loop (c :: w) 0) as [un e]. cbn [fst snd] in He, Hv.
    subst e.
    destruct (Z.leb_spec (maxInt + 1) un); [right; f_equal; lia|].
    left. cbn [fst snd]. split; [reflexivity|lia].
  - rewrite E. right. reflexivity.
Qed.

Lemma bytes_of_list w : bytes (string_of_list_ascii w) = w.
Proof. apply list_ascii_of_string_of_list_ascii. Qed.

Lemma Atoi_digits w :
  w <> [] -> forallb is_digit w = true ->
  0 <= fst (Atoi (string_of_list_ascii w)) <= maxInt /\
  (snd (Atoi (string_of_list_ascii w)) <> None ->
   Atoi (string_of_list_ascii w) = (maxInt, Some ErrRange)).
Proof.
  intros Hne Hw. unfold Atoi. rewrite bytes_of_list.
  destruct (ParseInt_digits w Hne Hw) as [[He Hv]|E].
  - split; [auto|]. congruence.
  - rewrite E. simpl. split; [rewrite maxInt_eq; lia|auto].
Qed.

Lemma Atoi_token c1 c2 c3 :
  is_digit c1 = true -> is_digit c2 = true -> is_digit c3 = true ->
  Atoi (string_of_list_ascii [c1; c2; c3]) = (token_value [c1; c2; c3], None).
Proof.
  intros H1 H2 H3. unfold Atoi. rewrite bytes_of_list.
  unfold ParseInt, ParseUint. rewrite (is_digit_not_sign c1 H1).
  pose proof (is_digit_not_sign c1 H1) as Hs.
  apply orb_false_elim in Hs as [_ ->]. cbn [negb andb].
  cbn [parseUint_loop]. rewrite H1, H2, H3.
  apply is_digit_spec in H1, H2, H3.
  unfold token_value. cbn [fold_left].
  repeat match goal with
         | |- context [maxUint64 <? ?x] =>
             destruct (Z.ltb_spec maxUint64 x);
               [rewrite maxUint64_eq in *; lia|]
         end.
  cbv zeta.
  match goal with
  | |- context [?c <=? ?x] => destruct (Z.leb_spec c x)
  end.
  - change (2 ^ (intSize - 1)) with 9223372036854775808 in *. lia.
  - reflexivity.
Qed.

Lemma token_range c1 c2 c3 :
  is_4_or_5 c1 = true -> is_digit c2 = true -> is_digit c3 = true ->
  400 <= token_value [c1; c2; c3] <= 599.
Proof.
  intros H1 H2 H3. apply is_digit_spec in H2, H3.
  unfold is_4_or_5 in H1. rewrite orb_true_iff, !Z.eqb_eq in H1.
  unfold token_value. cbn [fold_left]. unfold digit_val in *. lia.
Qed.

End Conversions.

(** * The fallback pattern *)

Section Fallback.

Lemma consumed_cons b b' cs cs' w t :
  consumed (Cursor b (w ++ t) cs) (Cursor b' t cs') = w.
Proof. apply consumed_app. reflexivity. Qed.

Lemma run_statusCodePattern b t :
  run (Cap 0 statusCodePattern) (Cursor b t []) =
  match standalone_token b t with
  | Some tok =>
      [Cursor (before b tok) (skipn 3 t) [(0%nat, tok); (1%nat, tok)]]
  | None => []
  end.
Proof.
  unfold statusCodePattern, standalone_token.
  cbn [Concat run map flat_map prev rest next caps].
  destruct t as [|c1 t].
  { cbn. destruct (is_word_at b); reflexivity. }
  cbn [next rest is_word_at prev].
  destruct (is_4_or_5 c1) eqn:H1.
  2:{ rewrite andb_false_r. cbn.
      destruct t as [|c2 [|c3 t]]; destruct (xorb _ _); cbn; rewrite ?H1;
        reflexivity. }
  rewrite (is_digit_word _ (is_4_or_5_digit _ H1)).
  destruct (is_word_at b); cbn [xorb negb andb].
  { cbn. destruct t as [|c2 [|c3 t]]; reflexivity. }
  cbn [flat_map app rest]. rewrite H1. cbn [flat_map app rest advance].
  destruct t as [|c2 t]; [reflexivity|].
  destruct (is_digit c2) eqn:H2; [|destruct t; reflexivity].
  cbn [flat_map app rest advance].
  destruct t as [|c3 t]; [reflexivity|].
  destruct (is_digit c3) eqn:H3; [|reflexivity].
  cbn [flat_map app rest advance map prev next caps set_cap is_word_at].
  rewrite (is_digit_word _ H3).
  replace (is_word_at (next _)) with (is_word_at (List.head t))
    by (destruct t; reflexivity).
  destruct (is_word_at (List.head t)); cbn [xorb negb andb app map flat_map];
    [reflexivity|].
  unfold set_cap, advance. cbn [prev rest caps].
  change (c1 :: c2 :: c3 :: t) with ([c1; c2; c3] ++ t).
  rewrite !consumed_cons. reflexivity.
Qed.

Lemma standalone_token_shape b t tok :
  standalone_token b t = Some tok ->
  exists c1 c2 c3 t',
    tok = [c1; c2; c3] /\ t = tok ++ t' /\
    is_4_or_5 c1 = true /\ is_digit c2 = true /\ is_digit c3 = true /\
    is_word_at b = false /\ is_word_at (List.head t') = false.
Proof.
  unfold standalone_token. destruct t as [|c1 [|c2 [|c3 t']]]; try discriminate.
  destruct (_ && _) eqn:E; [|discriminate]. intros [= <-].
  repeat (apply andb_prop in E as [E ?]).
  apply negb_true_iff in E. 
  exists c1, c2, c3, t'. rewrite negb_true_iff in *. auto 10.
Qed.

Lemma search_statusCodePattern t : forall b,
  option_map caps (search (Cap 0 statusCodePattern) b t) =
  match tokens b t with
  | tok :: _ => Some [(0%nat, tok); (1%nat, tok)]
  | [] => None
  end.
Proof.
  induction t as [|x t IH]; intros b.
  - rewrite search_unfold, run_statusCodePattern. reflexivity.
  - rewrite search_unfold, run_statusCodePattern. cbn [tokens].
    destruct (standalone_token b (x :: t)); [reflexivity|]. apply IH.
Qed.

Lemma Find_statusCodePattern line :
  FindStringSubmatch statusCodePattern line =
  match tokens None (bytes line) with
  | tok :: _ => Some [string_of_list_ascii tok; string_of_list_ascii tok]
  | [] => None
  end.
Proof.
  unfold FindStringSubmatch. fold (bytes line).
  pose proof (search_statusCodePattern (bytes line) None) as H.
  destruct (search _ _ _) as [m|]; simpl in H.
  - destruct (tokens None (bytes line)); [discriminate|].
    injection H as ->. reflexivity.
  - destruct (tokens None (bytes line)); [reflexivity|discriminate].
Qed.

Lemma tokens_In t : forall b tok,
  In tok (tokens b t) ->
  exists pre suf, t = pre ++ suf /\ standalone_token (before b pre) suf = Some tok.
Proof.
  induction t as [|x t IH]; intros b tok H; cbn [tokens] in H; [contradiction|].
  assert (Htl : In tok (tokens (Some x) t) ->
    exists pre suf, x :: t = pre ++ suf /\
                    standalone_token (before b pre) suf = Some tok).
  { intros H'. apply IH in H' as (pre & suf & -> & Hs).
    exists (x :: pre), suf. auto. }
  destruct (standalone_token b (x :: t)) as [tok'|] eqn:E; [|auto].
  simpl in H. destruct H as [<-|H]; [|auto]. exists [], (x :: t). auto.
Qed.

Lemma tokens_first t : forall b tok others,
  tokens b t = tok :: others ->
  exists pre post,
    t = pre ++ tok ++ post /\
    standalone_token (before b pre) (tok ++ post) = Some tok /\
    forall u v, pre = u ++ v -> v <> [] ->
      standalone_token (before b u) (v ++ tok ++ post) = None.
Proof.
  induction t as [|x t IH]; intros b tok others H; cbn [tokens] in H; [discriminate|].
  destruct (standalone_token b (x :: t)) as [tok'|] eqn:E.
  - injection H as -> _.
    destruct (standalone_token_shape _ _ _ E) as (c1 & c2 & c3 & t' & _ & Ht & _).
    exists [], t'. rewrite <- Ht. split; [auto|]. split; [auto|].
    intros u v Hu Hv. destruct u; destruct v; try discriminate; congruence.
  - apply IH in H as (pre & post & -> & Hs & Hno).
    exists (x :: pre), post. split; [auto|]. split; [auto|].
    intros u v Hu Hv. destruct u as [|y u].
    + simpl in Hu. subst v. simpl. apply E.
    + injection Hu as -> ->. apply Hno; auto.
Qed.

Lemma tokens_none t : forall b,
  tokens b t = [] ->
  forall pre suf, t = pre ++ suf -> standalone_token (before b pre) suf = None.
Proof.
  induction t as [|x t IH]; intros b H pre suf Ht.
  - destruct pre; [|discriminate]. simpl in Ht. subst suf. reflexivity.
  - cbn [tokens] in H.
    destruct (standalone_token b (x :: t)) eqn:E; [discriminate|].
    destruct pre as [|y pre]; simpl in Ht.
    + subst suf. apply E.
    + injection Ht as -> ->. simpl. apply (IH _ H). reflexivity.
Qed.

End Fallback.

(** * The key-value pattern *)

Section KeyValue.

Lemma json_matches b ws1 ws2 ds post :
  forallb is_space ws1 = true -> forallb is_space ws2 = true ->
  ds <> [] -> forallb is_digit ds = true ->
  run (Cap 0 jsonLogPattern) (Cursor b (status_pair ws1 ws2 ds ++ post) []) <> [].
Proof.
  intros H1 H2 Hne Hd.
  assert (Hin : exists m, In m (run (Cap 0 jsonLogPattern)
                  (Cursor b (status_pair ws1 ws2 ds ++ post) []))).
  { eexists. apply In_Cap. unfold jsonLogPattern, status_pair.
    rewrite <- !app_assoc. cbn [Concat app].
    eapply In_Cat; [apply In_Lit|].
    eapply In_Cat; [apply In_Str|].
    eapply In_Cat; [apply In_Lit|].
    eapply In_Cat; [apply In_Star, H1|].
    eapply In_Cat; [apply In_Lit|].
    eapply In_Cat; [apply In_Star, H2|].
    eapply In_Cat; [|apply In_Empty].
    apply In_Cap. apply In_Plus; auto. }
  destruct Hin as [m Hm]. intros E. rewrite E in Hm. contradiction.
Qed.

Lemma json_complete line :
  has_status_pair (bytes line) ->
  exists ms, FindStringSubmatch jsonLogPattern line = Some ms.
Proof.
  intros (pre & ws1 & ws2 & ds & post & Hl & H1 & H2 & Hne & Hd).
  unfold FindStringSubmatch. fold (bytes line). rewrite Hl.
  pose proof (search_complete (Cap 0 jsonLogPattern) pre None _
                (json_matches _ ws1 ws2 ds post H1 H2 Hne Hd)) as Hs.
  destruct (search _ _ _); [eauto|congruence].
Qed.

Lemma json_sound line ms :
  FindStringSubmatch jsonLogPattern line = Some ms ->
  has_status_pair (bytes line).
Proof.
  intros H. apply idx_Find in H as (m & Hs & _).
  apply search_sound in Hs as (pre & t' & Hl & Hm).
  unfold jsonLogPattern in Hm.
  cbn [Concat Str bytes list_ascii_of_string] in Hm.
  inv_run. cbn [rest] in *.
  exists pre, w0, w, w1, (rest k). repeat split; auto.
  rewrite Hl. f_equal. subst t'. unfold status_pair.
  rewrite <- !app_assoc. cbn [app bytes list_ascii_of_string].
  repeat match goal with
         | H : rest ?k = _ |- context [rest ?k] => rewrite H
         end.
  rewrite <- ?app_assoc. reflexivity.
Qed.

End KeyValue.

(** * What the patterns capture *)

Ltac captures_tac :=
  lazymatch goal with
  | |- _ \/ _ => first [ left; captures_tac | right; captures_tac ]
  | |- _ /\ _ => split; captures_tac
  | |- ~ In _ _ => cbn; intuition lia
  | |- _ = _ => reflexivity
  | |- _ <> _ => discriminate
  end.

Ltac captures_of pat :=
  unfold pat;
  cbn [captures Concat Str groups app bytes list_ascii_of_string];
  captures_tac.

Lemma combined_captures n :
  In n [1; 3; 4]%nat -> captures n (Plus non_space) (Cap 0 combinedLogPattern).
Proof.
  intros [<-|[<-|[<-|[]]]]; captures_of combinedLogPattern.
Qed.

Lemma combined_timestamp :
  captures 2 (Plus (not_char rbracket)) (Cap 0 combinedLogPattern).
Proof. captures_of combinedLogPattern. Qed.

Lemma combined_numbers n :
  In n [5; 6]%nat -> captures n (Plus is_digit) (Cap 0 combinedLogPattern).
Proof. intros [<-|[<-|[]]]; captures_of combinedLogPattern. Qed.

Lemma common_numbers n :
  In n [5; 6]%nat -> captures n (Plus is_digit) (Cap 0 commonLogPattern).
Proof. intros [<-|[<-|[]]]; captures_of commonLogPattern. Qed.

Lemma json_number : captures 1 (Plus is_digit) (Cap 0 jsonLogPattern).
Proof. captures_of jsonLogPattern. Qed.

Lemma string_of_list_nonempty w : w <> [] -> string_of_list_ascii w <> EmptyString.
Proof. destruct w; [congruence|discriminate]. Qed.

(** A numeric capture converts to a number between 0 and [maxInt]; when
    the conversion fails the number is [maxInt]. *)
Lemma Find_number re line ms n :
  FindStringSubmatch re line = Some ms ->
  captures n (Plus is_digit) (Cap 0 re) -> (n <= NumSubexp re)%nat ->
  0 <= fst (Atoi (idx ms n)) <= maxInt /\
  (snd (Atoi (idx ms n)) <> None -> Atoi (idx ms n) = (maxInt, Some ErrRange)).
Proof.
  intros H Hc Hn. destruct (Find_plus _ _ _ _ _ H Hc Hn) as (w & -> & Hne & Hw).
  apply Atoi_digits; auto.
Qed.

Lemma Find_fallback line ms :
  FindStringSubmatch statusCodePattern line = Some ms ->
  exists tok others,
    tokens None (bytes line) = tok :: others /\
    idx ms 1 = string_of_list_ascii tok /\
    Atoi (idx ms 1) = (token_value tok, None) /\
    400 <= token_value tok <= 599.
Proof.
  rewrite Find_statusCodePattern.
  destruct (tokens None (bytes line)) as [|tok others] eqn:E; [discriminate|].
  intros [= <-]. exists tok, others. split; [auto|]. split; [reflexivity|].
  destruct (tokens_first _ _ _ _ E) as (pre & post & _ & Hs & _).
  destruct (standalone_token_shape _ _ _ Hs)
    as (c1 & c2 & c3 & t' & -> & _ & H1 & H2 & H3 & _).
  unfold idx. cbn [nth]. split.
  - apply Atoi_token; auto using is_4_or_5_digit.
  - apply token_range; auto.
Qed.

(** * The parser, strategy by strategy *)

Section Parser.
Variables (e : HTTPLogExporter) (line podName containerName : string).

Lemma parse_combined ms :
  FindStringSubmatch combinedLogPattern line = Some ms ->
  parseLogLine e line podName containerName =
  Some {| Timestamp := idx ms 2; Method := idx ms 3; Path := idx ms 4;
          StatusCode := fst (Atoi (idx ms 5));
          ResponseSize := fst (Atoi (idx ms 6));
          UserAgent := EmptyString;
          PodName := podName; ContainerName := containerName |}.
Proof. intros H. unfold parseLogLine. rewrite H. reflexivity. Qed.

Lemma parse_common ms :
  FindStringSubmatch combinedLogPattern line = None ->
  FindStringSubmatch commonLogPattern line = Some ms ->
  parseLogLine e line podName containerName =
  Some {| Timestamp := idx ms 2; Method := idx ms 3; Path := idx ms 4;
          StatusCode := fst (Atoi (idx ms 5));
          ResponseSize := fst (Atoi (idx ms 6));
          UserAgent := EmptyString;
          PodName := podName; ContainerName := containerName |}.
Proof. intros H1 H2. unfold parseLogLine. rewrite H1, H2. reflexivity. Qed.

Lemma parse_json ms :
  FindStringSubmatch combinedLogPattern line = None ->
  FindStringSubmatch commonLogPattern line = None ->
  FindStringSubmatch jsonLogPattern line = Some ms ->
  parseLogLine e line podName containerName =
  Some (status_only (fst (Atoi (idx ms 1))) podName containerName).
Proof. intros H1 H2 H3. unfold parseLogLine. rewrite H1, H2, H3. reflexivity. Qed.

Lemma parse_fallback :
  FindStringSubmatch combinedLogPattern line = None ->
  FindStringSubmatch commonLogPattern line = None ->
  FindStringSubmatch jsonLogPattern line = None ->
  parseLogLine e line podName containerName =
  match FindStringSubmatch statusCodePattern line with
  | Some ms => Some (status_only (fst (Atoi (idx ms 1))) podName containerName)
  | None => None
  end.
Proof. intros H1 H2 H3. unfold parseLogLine. rewrite H1, H2, H3. reflexivity. Qed.

Lemma parse_fallback_tokens :
  FindStringSubmatch combinedLogPattern line = None ->
  FindStringSubmatch commonLogPattern line = None ->
  FindStringSubmatch jsonLogPattern line = None ->
  parseLogLine e line podName containerName =
  match tokens None (bytes line) with
  | tok :: _ => Some (status_only (token_value tok) podName containerName)
  | [] => None
  end.
Proof.
  intros H1 H2 H3. rewrite (parse_fallback H1 H2 H3).
  destruct (FindStringSubmatch statusCodePattern line) as [ms|] eqn:E.
  - destruct (Find_fallback _ _ E) as (tok & others & -> & _ & -> & _).
    reflexivity.
  - rewrite Find_statusCodePattern in E.
    destruct (tokens None (bytes line)); [reflexivity|discriminate].
Qed.

End Parser.

Lemma NumSubexp_combined : NumSubexp combinedLogPattern = 6%nat.
Proof. reflexivity. Qed.
Lemma NumSubexp_common : NumSubexp commonLogPattern = 6%nat.
Proof. reflexivity. Qed.
Lemma NumSubexp_json : NumSubexp jsonLogPattern = 1%nat.
Proof. reflexivity. Qed.


Lemma fallback_entry (e : HTTPLogExporter)
    (line podName containerName : string) (entry : LogEntry) :
  FindStringSubmatch combinedLogPattern line = None ->
  FindStringSubmatch commonLogPattern line = None ->
  FindStringSubmatch jsonLogPattern line = None ->
  parseLogLine e line podName containerName = Some entry ->
  exists pre c1 c2 c3 post others,
    tokens None (bytes line) = [c1; c2; c3] :: others /\
    bytes line = pre ++ [c1; c2; c3] ++ post /\
    standalone_token (before None pre) ([c1; c2; c3] ++ post)
      = Some [c1; c2; c3] /\
    is_4_or_5 c1 = true /\ is_digit c2 = true /\ is_digit c3 = true /\
    is_word_at (before None pre) = false /\
    is_word_at (List.head post) = false /\
    entry = status_only (token_value [c1; c2; c3]) podName containerName /\
    400 <= token_value [c1; c2; c3] <= 599.
Proof.
  intros E1 E2 E3 H. rewrite parse_fallback_tokens in H by auto.
  destruct (tokens None (bytes line)) as [|tok others] eqn:Ht; [discriminate|].
  injection H as <-.
  destruct (tokens_first _ _ _ _ Ht) as (pre & post & Hl & Hs & _).
  destruct (standalone_token_shape _ _ _ Hs)
    as (c1 & c2 & c3 & t' & -> & Happ & H1 & H2 & H3 & Hb & Ha).
  apply app_inv_head in Happ. subst t'.
  exists pre, c1, c2, c3, post, others.
  repeat (split; [solve [auto]|]). apply token_range; auto.
Qed.

(** * The aggregator *)

Lemma value_of_Inc (lvs k : list string) (v : gmap (list string) nat) :
  value_of lvs (Inc k v) =
  (value_of lvs v + if decide (lvs = k) then 1 else 0)%nat.
Proof.
  unfold value_of, Inc. case_decide as H.
  - subst. rewrite lookup_insert_eq. simpl. unfold value_of. lia.
  - rewrite lookup_insert_ne by congruence. lia.
Qed.





(** * The tests of the repository

    The model, run on the tables of [TestParseLogLine], [TestLogPatterns]
    and [TestUpdateMetrics], gives what the tests expect. *)

Ltac by_computation := vm_compute; reflexivity.

Example test_combined_200 :
  parseLogLine test_exporter
    (quoted ("127.0.0.1 - - [25/Dec/2019:01:17:21 +0000] " +:+
             "'GET /api/health HTTP/1.1' 200 612")) "test-pod" "app" =
  Some {| Timestamp := "25/Dec/2019:01:17:21 +0000"; Method := "GET";
          Path := "/api/health"; StatusCode := 200; ResponseSize := 612;
          UserAgent := ""; PodName := "test-pod"; ContainerName := "app" |}.
Proof. by_computation. Qed.

Example test_combined_404 :
  parseLogLine test_exporter
    (quoted ("192.168.1.100 - - [01/Jan/2024:12:00:00 +0000] " +:+
             "'GET /api/notfound HTTP/1.1' 404 0")) "web-pod" "nginx" =
  Some {| Timestamp := "01/Jan/2024:12:00:00 +0000"; Method := "GET";
          Path := "/api/notfound"; StatusCode := 404; ResponseSize := 0;
          UserAgent := ""; PodName := "web-pod"; ContainerName := "nginx" |}.
Proof. by_computation. Qed.

Example test_common_422 :
  parseLogLine test_exporter
    (quoted ("172.16.0.1 - - [20/Feb/2024:14:15:30 +0000] " +:+
             "'PUT /api/data HTTP/1.1' 422 256")) "data-pod" "service" =
  Some {| Timestamp := "20/Feb/2024:14:15:30 +0000"; Method := "PUT";
          Path := "/api/data"; StatusCode := 422; ResponseSize := 256;
          UserAgent := ""; PodName := "data-pod"; ContainerName := "service" |}.
Proof. by_computation. Qed.

Example test_json_200 :
  parseLogLine test_exporter
    (quoted ("{'timestamp':'2024-01-01T12:00:00Z','level':'info'," +:+
             "'msg':'request processed','method':'GET','path':'/health'," +:+
             "'status':200,'duration':5}")) "json-pod" "app" =
  Some (status_only 200 "json-pod" "app").
Proof. by_computation. Qed.

Example test_json_500 :
  parseLogLine test_exporter
    (quoted ("{'timestamp':'2024-01-01T12:00:00Z','level':'error'," +:+
             "'msg':'internal error','status':500}")) "error-pod" "app" =
  Some (status_only 500 "error-pod" "app").
Proof. by_computation. Qed.

Example test_fallback_404 :
  parseLogLine test_exporter
    "ERROR: Request failed with status 404 - Not Found" "fallback-pod" "app" =
  Some (status_only 404 "fallback-pod" "app").
Proof. by_computation. Qed.

Example test_fallback_503 :
  parseLogLine test_exporter line_503 "service-pod" "backend" =
  Some (status_only 503 "service-pod" "backend").
Proof. by_computation. Qed.

Example test_no_status :
  parseLogLine test_exporter
    "This is just a regular log message without status" "regular-pod" "app" =
  None.
Proof. by_computation. Qed.

Example test_empty_line :
  parseLogLine test_exporter "" "empty-pod" "app" = None.
Proof. by_computation. Qed.

Example test_not_4xx_5xx :
  parseLogLine test_exporter
    "Processing item 123 successfully" "process-pod" "worker" = None.
Proof. by_computation. Qed.

Example test_pattern_combined_other_user :
  FindStringSubmatch combinedLogPattern
    (quoted ("192.168.1.100 user1 group1 [01/Jan/2024:12:00:00 +0000] " +:+
             "'POST /api/data HTTP/1.1' 201 1024")) <> None.
Proof. vm_compute. discriminate. Qed.

Example test_pattern_combined_incomplete :
  FindStringSubmatch combinedLogPattern
    (quoted ("127.0.0.1 - - [25/Dec/2019:01:17:21 +0000] " +:+
             "'GET /api/health'")) = None.
Proof. by_computation. Qed.

Example test_pattern_json_spaces :
  FindStringSubmatch jsonLogPattern
    (quoted "{'level':'error', 'status' : 500, 'error':'Internal error'}")
  <> None.
Proof. vm_compute. discriminate. Qed.

Example test_pattern_status_3xx :
  FindStringSubmatch statusCodePattern "Redirected with status 301" = None.
Proof. by_computation. Qed.

Example test_update_200 :
  let e := updateMetrics test_exporter (status_only 200 "test-pod" "app") in
  value_of ["test-namespace"; "test-pod"; "app"; "200"]%string
    (httpRequestsTotal e) = 1%nat /\
  httpErrorsTotal e = ∅.
Proof. split; by_computation. Qed.

Example test_update_503 :
  let e :=
    updateMetrics test_exporter (status_only 503 "service-pod" "backend") in
  value_of ["test-namespace"; "service-pod"; "backend"; "503"]%string
    (httpRequestsTotal e) = 1%nat /\
  value_of ["test-namespace"; "service-pod"; "backend"; "503"; "5xx"]%string
    (httpErrorsTotal e) = 1%nat.
Proof. split; by_computation. Qed.

(** * Properties of the parser and of the aggregator *)



(** C2, as the code has it.  The fallback accepts a three-digit
    substring that starts with 4 or 5 only where it stands alone: every
    status code the fallback returns is read from three bytes of the
    line with no word character (letter, digit or underscore) just
    before them and none just after.  A substring inside a longer
    number is never taken. *)
Theorem fallback_requires_word_boundaries (e : HTTPLogExporter)
    (line podName containerName : string) (entry : LogEntry) :
  FindStringSubmatch combinedLogPattern line = None ->
  FindStringSubmatch commonLogPattern line = None ->
  FindStringSubmatch jsonLogPattern line = None ->
  parseLogLine e line podName containerName = Some entry ->
  exists pre tok post,
    bytes line = pre ++ tok ++ post /\
    length tok = 3%nat /\
    is_word_at (before None pre) = false /\
    is_word_at (List.head post) = false /\
    standalone_token (before None pre) (tok ++ post) = Some tok /\
    StatusCode entry = token_value tok.
Proof.
  intros E1 E2 E3 H.
  destruct (fallback_entry _ _ _ _ _ E1 E2 E3 H)
    as (pre & c1 & c2 & c3 & post & others & _ & Hl & Hs & _ & _ & _ & Hb & Ha
        & -> & _).
  exists pre, [c1; c2; c3], post. auto 10.
Qed.

Lemma fallback_requires_word_boundaries_witness :
  exists pre tok post,
    bytes line_503 = pre ++ tok ++ post /\
    length tok = 3%nat /\
    is_word_at (before None pre) = false /\
    is_word_at (List.head post) = false /\
    standalone_token (before None pre) (tok ++ post) = Some tok /\
    503 = token_value tok.
Proof.
  apply (fallback_requires_word_boundaries test_exporter line_503
           "service-pod" "backend"
           (status_only 503 "service-pod" "backend")); by_computation.
Defined.

(** C2 as stated does not hold: the line [order 45012 shipped] holds
    501 inside 45012 and matches none of the first three patterns, and
    no event comes back; in no line is the 501 inside 45012 a standalone
    token. *)
Lemma embedded_code_counterexample :
  bytes line_order_id = bytes "order 4" ++ bytes "501" ++ bytes "2 shipped" /\
  FindStringSubmatch combinedLogPattern line_order_id = None /\
  FindStringSubmatch commonLogPattern line_order_id = None /\
  FindStringSubmatch jsonLogPattern line_order_id = None /\
  parseLogLine test_exporter line_order_id "test-pod" "app" = None /\
  (forall pre post,
     standalone_token (before None (pre ++ bytes "4"))
       (bytes "501" ++ bytes "2" ++ post) = None).
Proof.
  repeat split; try by_computation.
  intros pre post. rewrite before_app. reflexivity.
Qed.




(** C4, as the code has it.  When the first two patterns do not match,
    strategy 3 matches exactly the lines that hold, somewhere, the key
    [status] between double quotes, then optional white space, a colon,
    optional white space and at least one digit; the entry it returns
    has only the status code (and the source identity) populated.  The
    quotes are part of the pattern: an unquoted key is not matched. *)
Theorem key_value_strategy (e : HTTPLogExporter)
    (line podName containerName : string) :
  FindStringSubmatch combinedLogPattern line = None ->
  FindStringSubmatch commonLogPattern line = None ->
  (has_status_pair (bytes line) <->
   exists ms, FindStringSubmatch jsonLogPattern line = Some ms) /\
  (forall ms,
     FindStringSubmatch jsonLogPattern line = Some ms ->
     parseLogLine e line podName containerName =
     Some (status_only (fst (Atoi (idx ms 1))) podName containerName)).
Proof.
  intros E1 E2. split.
  - split; [apply json_complete|]. intros [ms H]. apply (json_sound _ _ H).
  - intros ms E3. apply parse_json; auto.
Qed.

Lemma key_value_strategy_witness :
  parseLogLine test_exporter line_json_500 "error-pod" "app" =
  Some (status_only 500 "error-pod" "app").
Proof.
  refine (proj2 (key_value_strategy test_exporter line_json_500
                   "error-pod" "app" _ _) (json_sample line_json_500) _);
    by_computation.
Defined.

(** C4 as stated does not hold: the line [status: 200], with the key
    unquoted, matches no pattern at all. *)
Lemma unquoted_key_counterexample :
  FindStringSubmatch combinedLogPattern line_unquoted_key = None /\
  FindStringSubmatch commonLogPattern line_unquoted_key = None /\
  FindStringSubmatch jsonLogPattern line_unquoted_key = None /\
  parseLogLine test_exporter line_unquoted_key "test-pod" "app" = None.
Proof. repeat split; by_computation. Qed.

(** C5, as the code has it.  Every entry [parseLogLine] returns has its
    status code between 0 and [maxInt]; the code is between 400 and 599
    when the fallback produced the entry.  Strategies 1 to 3 capture
    digits of any number and check no range. *)
Theorem status_code_range (e : HTTPLogExporter)
    (line podName containerName : string) (entry : LogEntry) :
  parseLogLine e line podName containerName = Some entry ->
  0 <= StatusCode entry <= maxInt /\
  (FindStringSubmatch combinedLogPattern line = None ->
   FindStringSubmatch commonLogPattern line = None ->
   FindStringSubmatch jsonLogPattern line = None ->
   400 <= StatusCode entry <= 599).
Proof.
  intros H.
  destruct (FindStringSubmatch combinedLogPattern line) as [ms|] eqn:E1.
  { rewrite (parse_combined _ _ _ _ _ E1) in H. injection H as <-.
    cbn [StatusCode]. split; [|discriminate].
    apply (Find_number _ _ _ 5%nat E1); [apply combined_numbers; simpl; auto|].
    rewrite NumSubexp_combined. lia. }
  destruct (FindStringSubmatch commonLogPattern line) as [ms|] eqn:E2.
  { rewrite (parse_common _ _ _ _ _ E1 E2) in H. injection H as <-.
    cbn [StatusCode]. split; [|discriminate].
    apply (Find_number _ _ _ 5%nat E2); [apply common_numbers; simpl; auto|].
    rewrite NumSubexp_common. lia. }
  destruct (FindStringSubmatch jsonLogPattern line) as [ms|] eqn:E3.
  { rewrite (parse_json _ _ _ _ _ E1 E2 E3) in H. injection H as <-.
    cbn [StatusCode status_only]. split; [|discriminate].
    apply (Find_number _ _ _ 1%nat E3); [apply json_number|].
    rewrite NumSubexp_json. lia. }
  destruct (fallback_entry _ _ _ _ _ E1 E2 E3 H)
    as (pre & c1 & c2 & c3 & post & others & _ & _ & _ & _ & _ & _ & _ & _
        & -> & Hr).
  cbn [StatusCode status_only]. split; [rewrite maxInt_eq; lia|auto].
Qed.

Lemma status_code_range_witness :
  0 <= 503 <= maxInt /\
  (FindStringSubmatch combinedLogPattern line_503 = None ->
   FindStringSubmatch commonLogPattern line_503 = None ->
   FindStringSubmatch jsonLogPattern line_503 = None ->
   400 <= 503 <= 599).
Proof.
  apply (status_code_range test_exporter line_503 "service-pod" "backend"
           (status_only 503 "service-pod" "backend")).
  by_computation.
Defined.

(** C5 as stated does not hold: a four-digit status value in a
    key-value line comes back as it is. *)
Lemma four_digit_status_counterexample :
  parseLogLine test_exporter line_json_1234 "test-pod" "app"
    = Some (status_only 1234 "test-pod" "app") /\
  ~ (0 <= StatusCode (status_only 1234 "test-pod" "app") <= 999).
Proof. split; [by_computation|]. cbn [StatusCode status_only]. lia. Qed.

(** C6.  A line that the combined pattern matches and that also holds a
    status key-value pair is read by strategy 1: the entry takes its
    timestamp, method and path from the captures of the combined
    pattern, none of them empty, and is not the entry strategy 3 would
    build. *)
Theorem combined_takes_priority (e : HTTPLogExporter)
    (line podName containerName : string) (ms js : list string) :
  FindStringSubmatch combinedLogPattern line = Some ms ->
  FindStringSubmatch jsonLogPattern line = Some js ->
  parseLogLine e line podName containerName =
    Some {| Timestamp := idx ms 2; Method := idx ms 3; Path := idx ms 4;
            StatusCode := fst (Atoi (idx ms 5));
            ResponseSize := fst (Atoi (idx ms 6));
            UserAgent := EmptyString;
            PodName := podName; ContainerName := containerName |} /\
  idx ms 2 <> EmptyString /\ idx ms 3 <> EmptyString /\
  idx ms 4 <> EmptyString /\
  parseLogLine e line podName containerName <>
    Some (status_only (fst (Atoi (idx js 1))) podName containerName).
Proof.
  intros Hc Hj. rewrite (parse_combined e line podName containerName ms Hc).
  assert (H2 : idx ms 2 <> EmptyString).
  { destruct (Find_plus _ _ _ 2%nat _ Hc combined_timestamp) as (w & -> & Hne & _).
    - rewrite NumSubexp_combined. lia.
    - apply string_of_list_nonempty, Hne. }
  assert (Hn : forall n, In n [3; 4]%nat -> idx ms n <> EmptyString).
  { intros n Hn.
    destruct (Find_plus _ _ _ n _ Hc (combined_captures n ltac:(simpl in *; tauto)))
      as (w & -> & Hne & _).
    - rewrite NumSubexp_combined. simpl in Hn. lia.
    - apply string_of_list_nonempty, Hne. }
  repeat split; auto.
  - apply Hn. simpl. auto.
  - apply Hn. simpl. auto.
  - intros [= Ht _]. auto.
Qed.

Lemma combined_takes_priority_witness :
  parseLogLine test_exporter line_status_key_in_access_log "test-pod" "app" =
  Some {| Timestamp := "25/Dec/2019:01:17:21 +0000"; Method := "GET";
          Path := "/api/health"; StatusCode := 200; ResponseSize := 612;
          UserAgent := ""; PodName := "test-pod"; ContainerName := "app" |}.
Proof.
  refine (proj1 (combined_takes_priority test_exporter
                   line_status_key_in_access_log "test-pod" "app"
                   combined_sample
                   (json_sample line_status_key_in_access_log) _ _));
    by_computation.
Defined.

(** C7.  When the first three patterns do not match, the status code of
    the entry is between 400 and 599, so never between 200 and 399; what
    the fallback pattern captures is always three bytes, the first 4 or
    5 and the other two digits, whatever else the line holds; and a line
    with no standalone token of that form gives no entry. *)
Theorem fallback_only_4xx_5xx (e : HTTPLogExporter)
    (line podName containerName : string) :
  FindStringSubmatch combinedLogPattern line = None ->
  FindStringSubmatch commonLogPattern line = None ->
  FindStringSubmatch jsonLogPattern line = None ->
  (forall entry,
     parseLogLine e line podName containerName = Some entry ->
     400 <= StatusCode entry <= 599 /\ ~ 200 <= StatusCode entry <= 399) /\
  (forall ms,
     FindStringSubmatch statusCodePattern line = Some ms ->
     exists c1 c2 c3,
       idx ms 1 = string_of_list_ascii [c1; c2; c3] /\
       is_4_or_5 c1 = true /\ is_digit c2 = true /\ is_digit c3 = true) /\
  (tokens None (bytes line) = [] ->
   parseLogLine e line podName containerName = None).
Proof.
  intros E1 E2 E3. split; [|split].
  - intros entry H.
    destruct (fallback_entry _ _ _ _ _ E1 E2 E3 H)
      as (pre & c1 & c2 & c3 & post & others & _ & _ & _ & _ & _ & _ & _ & _
          & -> & Hr).
    cbn [StatusCode status_only]. lia.
  - intros ms E4.
    destruct (Find_fallback _ _ E4) as (tok & others & Ht & -> & _).
    destruct (tokens_first _ _ _ _ Ht) as (pre & post & _ & Hs & _).
    destruct (standalone_token_shape _ _ _ Hs)
      as (c1 & c2 & c3 & t' & -> & _ & H1 & H2 & H3 & _).
    exists c1, c2, c3. auto.
  - intros Ht. rewrite parse_fallback_tokens by auto. rewrite Ht. reflexivity.
Qed.

Lemma fallback_only_4xx_5xx_witness :
  parseLogLine test_exporter line_200 "test-pod" "app" = None.
Proof.
  refine (proj2 (proj2 (fallback_only_4xx_5xx test_exporter line_200
                          "test-pod" "app" _ _ _)) _); by_computation.
Defined.

(** C8.  A line that none of the four patterns matches, and the empty
    line in particular, gives no entry, and the scanning loop leaves the
    exporter, counters included, as it was.  The result is an entry or
    nothing: there is no third outcome in the type. *)
Theorem no_match_is_silent (e : HTTPLogExporter)
    (line podName containerName : string) :
  line = EmptyString \/
  (FindStringSubmatch combinedLogPattern line = None /\
   FindStringSubmatch commonLogPattern line = None /\
   FindStringSubmatch jsonLogPattern line = None /\
   FindStringSubmatch statusCodePattern line = None) ->
  parseLogLine e line podName containerName = None /\
  processLine e line podName containerName = e.
Proof.
  intros H.
  assert (Hp : parseLogLine e line podName containerName = None).
  { destruct H as [->|(H1 & H2 & H3 & H4)].
    - vm_compute. reflexivity.
    - rewrite parse_fallback by auto. rewrite H4. reflexivity. }
  split; [exact Hp|]. unfold processLine. rewrite Hp. reflexivity.
Qed.

Lemma no_match_is_silent_witness :
  parseLogLine test_exporter line_200 "test-pod" "app" = None /\
  processLine test_exporter line_200 "test-pod" "app" = test_exporter.
Proof.
  apply no_match_is_silent. right. repeat split; by_computation.
Defined.


(** C10.  When the first three patterns do not match and the line holds
    one or more standalone tokens, the entry's status code is the number
    of the first of them from the left: no standalone token starts at an
    earlier offset. *)
Theorem fallback_extracts_leftmost (e : HTTPLogExporter)
    (line podName containerName : string)
    (tok : list ascii) (others : list (list ascii)) :
  FindStringSubmatch combinedLogPattern line = None ->
  FindStringSubmatch commonLogPattern line = None ->
  FindStringSubmatch jsonLogPattern line = None ->
  tokens None (bytes line) = tok :: others ->
  parseLogLine e line podName containerName =
    Some (status_only (token_value tok) podName containerName) /\
  exists pre post,
    bytes line = pre ++ tok ++ post /\
    standalone_token (before None pre) (tok ++ post) = Some tok /\
    forall u v, pre = u ++ v -> v <> [] ->
      standalone_token (before None u) (v ++ tok ++ post) = None.
Proof.
  intros E1 E2 E3 Ht. split.
  - rewrite parse_fallback_tokens by auto. rewrite Ht. reflexivity.
  - apply (tokens_first _ _ _ _ Ht).
Qed.

Lemma fallback_extracts_leftmost_witness :
  parseLogLine test_exporter line_two_tokens "test-pod" "app" =
  Some (status_only 502 "test-pod" "app").
Proof.
  refine (proj1 (fallback_extracts_leftmost test_exporter line_two_tokens
                   "test-pod" "app" (bytes "502") [bytes "404"] _ _ _ _));
    by_computation.
Defined.

(** * Numerals and their conversions *)

Section Numerals.

Lemma digits_value_ge w : forall n,
  forallb is_digit w = true -> 0 <= n -> n <= digits_value w n.
Proof.
  induction w as [|c w IH]; intros n Hw Hn; simpl in *; [lia|].
  apply andb_prop in Hw as [Hc Hw]. apply is_digit_spec in Hc.
  etransitivity; [|apply IH; auto; lia]. lia.
Qed.

Lemma parseUint_loop_exact w : forall n,
  forallb is_digit w = true -> 0 <= n ->
  digits_value w n <= maxUint64 ->
  parseUint_loop w n = (digits_value w n, None).
Proof.
  induction w as [|c w IH]; intros n Hw Hn Hmax; simpl in *; [reflexivity|].
  apply andb_prop in Hw as [Hc Hw]. rewrite Hc.
  pose proof Hc as Hd. apply is_digit_spec in Hd.
  assert (Hn1 : 0 <= n * 10 + digit_val c) by (clear - Hn Hd; lia).
  pose proof (digits_value_ge w (n * 10 + digit_val c) Hw Hn1) as Hge.
  destruct (Z.ltb_spec maxUint64 (n * 10 + digit_val c)); [lia|].
  apply IH; auto.
Qed.

(** The digits of a decimal number. *)
Lemma uint_digits d : forallb is_digit (bytes (NilEmpty.string_of_uint d)) = true.
Proof. induction d; simpl; auto. Qed.

Lemma uint_value_acc d : forall acc,
  digits_value (bytes (NilEmpty.string_of_uint d)) (Zpos acc) =
  Zpos (Pos.of_uint_acc d acc).
Proof.
  induction d; intros acc; simpl; try reflexivity;
    unfold digits_value in *; simpl; rewrite <- IHd; f_equal;
    unfold digit_val, code; simpl; lia.
Qed.

Lemma uint_value d :
  digits_value (bytes (NilEmpty.string_of_uint d)) 0 = Z.of_N (Pos.of_uint d).
Proof.
  induction d; simpl; try reflexivity; try exact IHd;
    unfold digits_value; simpl;
    match goal with
    | |- context [Pos.of_uint_acc ?d ?a] => rewrite <- (uint_value_acc d a)
    end; reflexivity.
Qed.

Lemma ParseUint_exact w :
  w <> [] -> forallb is_digit w = true -> digits_value w 0 <= maxUint64 ->
  ParseUint w = (digits_value w 0, None).
Proof.
  intros Hne Hw Hmax. destruct w as [|c w]; [congruence|].
  unfold ParseUint. apply parseUint_loop_exact; auto. lia.
Qed.

Lemma cutoff_eq : 2 ^ (intSize - 1) = maxInt + 1.
Proof. reflexivity. Qed.

(** A string of digits whose number fits an [int] converts to that
    number. *)
Lemma ParseInt_exact w :
  w <> [] -> forallb is_digit w = true -> digits_value w 0 <= maxInt ->
  ParseInt w = (digits_value w 0, None).
Proof.
  intros Hne Hw Hmax.
  assert (Hu : ParseUint w = (digits_value w 0, None)).
  { apply ParseUint_exact; auto. rewrite maxUint64_eq. rewrite maxInt_eq in Hmax. lia. }
  destruct w as [|c w]; [congruence|].
  unfold ParseInt.
  assert (Hc : is_digit c = true) by (simpl in Hw; apply andb_prop in Hw; tauto).
  pose proof (is_digit_not_sign c Hc) as Hs. rewrite Hs.
  apply orb_false_elim in Hs as [_ ->]. rewrite Hu. cbn [negb andb].
  rewrite cutoff_eq.
  destruct (Z.leb_spec (maxInt + 1) (digits_value (c :: w) 0)); [lia|].
  reflexivity.
Qed.

Lemma string_of_uint_nonempty d :
  d <> Decimal.Nil -> bytes (NilEmpty.string_of_uint d) <> [].
Proof. destruct d; simpl; congruence. Qed.

Lemma Itoa_pos p :
  Itoa (Zpos p) = NilEmpty.string_of_uint (Pos.to_uint p).
Proof.
  unfold Itoa. simpl. pose proof (Unsigned.to_uint_nonnil p) as H.
  destruct (Pos.to_uint p); [congruence|reflexivity..].
Qed.

Lemma Itoa_neg p :
  Itoa (Zneg p) = String dash (NilEmpty.string_of_uint (Pos.to_uint p)).
Proof.
  unfold Itoa. simpl. pose proof (Unsigned.to_uint_nonnil p) as H.
  destruct (Pos.to_uint p); [congruence|reflexivity..].
Qed.

Lemma pos_digits_value p :
  digits_value (bytes (NilEmpty.string_of_uint (Pos.to_uint p))) 0 = Zpos p.
Proof. rewrite uint_value, Unsigned.of_to. reflexivity. Qed.

(** Printing an [int] and reading it back gives the number, with no
    error. *)
Lemma Atoi_Itoa n : - maxInt - 1 <= n <= maxInt -> Atoi (Itoa n) = (n, None).
Proof.
  intros Hn. destruct n as [|p|p].
  - reflexivity.
  - rewrite Itoa_pos. unfold Atoi.
    rewrite ParseInt_exact; [rewrite pos_digits_value; reflexivity|..].
    + apply string_of_uint_nonempty, Unsigned.to_uint_nonnil.
    + apply uint_digits.
    + rewrite pos_digits_value. lia.
  - rewrite Itoa_neg. unfold Atoi. cbn [bytes list_ascii_of_string].
    fold (bytes (NilEmpty.string_of_uint (Pos.to_uint p))).
    unfold ParseInt. rewrite Ascii.eqb_refl, orb_true_r.
    rewrite ParseUint_exact.
    + rewrite pos_digits_value, cutoff_eq. cbn [negb andb].
      destruct (Z.ltb_spec (maxInt + 1) (Z.pos p)); [lia|]. reflexivity.
    + apply string_of_uint_nonempty, Unsigned.to_uint_nonnil.
    + apply uint_digits.
    + rewrite pos_digits_value, maxUint64_eq. rewrite maxInt_eq in Hn. lia.
Qed.

Lemma Itoa_inj a b : Itoa a = Itoa b -> a = b.
Proof.
  intros H. apply DecimalZ.to_int_inj.
  assert (Hi : forall z, NilZero.int_of_string (Itoa z) = Some (Z.to_int z)).
  { intros z. unfold Itoa. apply NilZero.isi.
    - destruct z; simpl; try discriminate.
      intros [= E]. apply (Unsigned.to_uint_nonnil _ E).
    - destruct z; simpl; try discriminate.
      intros [= E]. apply (Unsigned.to_uint_nonnil _ E). }
  pose proof (Hi a) as Ha. rewrite H, Hi in Ha. congruence.
Qed.

Lemma parseUint_loop_overflow w : forall n,
  forallb is_digit w = true -> 0 <= n <= maxUint64 ->
  maxUint64 < digits_value w n ->
  parseUint_loop w n = (maxUint64, Some ErrRange).
Proof.
  induction w as [|c w IH]; intros n Hw Hn Hmax; simpl in *; [lia|].
  apply andb_prop in Hw as [Hc Hw]. rewrite Hc.
  apply is_digit_spec in Hc.
  destruct (Z.ltb_spec maxUint64 (n * 10 + digit_val c)); [reflexivity|].
  apply IH; auto. lia.
Qed.

Lemma parseUint_loop_syntax w : forall n,
  forallb is_digit w = false -> snd (parseUint_loop w n) <> None.
Proof.
  induction w as [|c w IH]; intros n Hw; simpl in *; [discriminate|].
  destruct (is_digit c); simpl in *; [|discriminate].
  destruct (_ <? _); [discriminate|]. apply IH, Hw.
Qed.

Lemma parseUint_loop_error w : forall n e,
  snd (parseUint_loop w n) = Some e ->
  parseUint_loop w n = (0, Some ErrSyntax) \/
  parseUint_loop w n = (maxUint64, Some ErrRange).
Proof.
  induction w as [|c w IH]; intros n e H; simpl in *; [discriminate|].
  destruct (is_digit c); [|auto].
  destruct (_ <? _); [auto|]. eapply IH, H.
Qed.

(** [ParseUint] on any string: the number when the string is one or more
    digits and the number fits 64 bits, an error otherwise. *)
Lemma ParseUint_spec w :
  (w <> [] /\ forallb is_digit w = true /\ digits_value w 0 <= maxUint64 /\
   ParseUint w = (digits_value w 0, None)) \/
  (w <> [] /\ forallb is_digit w = true /\ maxUint64 < digits_value w 0 /\
   ParseUint w = (maxUint64, Some ErrRange)) \/
  ((w = [] \/ forallb is_digit w = false) /\
   (ParseUint w = (0, Some ErrSyntax) \/
    ParseUint w = (maxUint64, Some ErrRange))).
Proof.
  destruct w as [|c w]; [right; right; auto|].
  destruct (forallb is_digit (c :: w)) eqn:Hw.
  - destruct (Z.le_gt_cases (digits_value (c :: w) 0) maxUint64).
    + left. repeat split; try congruence; auto.
      apply ParseUint_exact; auto; congruence.
    + right. left. repeat split; try congruence; auto.
      unfold ParseUint. apply parseUint_loop_overflow; auto.
      rewrite maxUint64_eq. lia.
  - right. right. split; [auto|]. unfold ParseUint.
    pose proof (parseUint_loop_syntax (c :: w) 0 Hw) as He.
    destruct (snd (parseUint_loop (c :: w) 0)) as [e|] eqn:E; [|congruence].
    eapply parseUint_loop_error, E.
Qed.

Lemma digits_value_nonneg w : forall n,
  forallb is_digit w = true -> 0 <= n -> 0 <= digits_value w n.
Proof.
  intros n Hw Hn. pose proof (digits_value_ge w n Hw Hn). lia.
Qed.

(** [ParseInt] on any string: the integer of the numeral when it fits 64
    bits, an error otherwise. *)
Lemma ParseInt_spec w :
  if fits_int w then ParseInt w = (numeral_value w, None)
  else snd (ParseInt w) <> None.
Proof.
  unfold fits_int, is_numeral, numeral_value.
  destruct w as [|c t]; [simpl; discriminate|].
  unfold ParseInt. rewrite cutoff_eq.
  destruct (Ascii.eqb_spec c dash) as [->|Hd].
  - (* negative *)
    change (Ascii.eqb dash plus_sign) with false. cbn [orb negb andb].
    destruct (ParseUint_spec t) as [(Hne & Hw & Hv & ->)|[(Hne & Hw & Hv & ->)|([->|Hw] & He)]].
    + rewrite Hw. destruct t as [|x t]; [congruence|]. cbn [length Nat.eqb negb andb].
      pose proof (digits_value_nonneg (x :: t) 0 Hw ltac:(reflexivity)) as H0.
      destruct (Z.ltb_spec (maxInt + 1) (digits_value (x :: t) 0)).
      * replace (- maxInt - 1 <=? - digits_value (x :: t) 0) with false
          by (symmetry; apply Z.leb_gt; lia).
        simpl. discriminate.
      * replace (- maxInt - 1 <=? - digits_value (x :: t) 0) with true
          by (symmetry; apply Z.leb_le; lia).
        replace (- digits_value (x :: t) 0 <=? maxInt) with true
          by (symmetry; apply Z.leb_le; rewrite maxInt_eq; lia).
        reflexivity.
    + rewrite Hw. destruct t as [|x t]; [congruence|]. cbn [length Nat.eqb negb andb].
      replace (- maxInt - 1 <=? - digits_value (x :: t) 0) with false
        by (symmetry; apply Z.leb_gt; rewrite maxUint64_eq, maxInt_eq in *; lia).
      cbn [andb].
      replace (maxInt + 1 <? maxUint64) with true by reflexivity.
      simpl. discriminate.
    + simpl. discriminate.
    + rewrite Hw, andb_false_r. cbn [andb].
      destruct He as [->| ->]; simpl; discriminate.
  - destruct (Ascii.eqb c dash) eqn:Ed; [apply Ascii.eqb_eq in Ed; congruence|].
    rewrite orb_false_r. cbn [negb andb].
    destruct (Ascii.eqb c plus_sign) eqn:Ep.
    + (* explicit plus sign *)
      destruct (ParseUint_spec t) as [(Hne & Hw & Hv & ->)|[(Hne & Hw & Hv & ->)|([->|Hw] & He)]].
      * rewrite Hw. destruct t as [|x t]; [congruence|]. cbn [length Nat.eqb negb andb].
        pose proof (digits_value_nonneg (x :: t) 0 Hw ltac:(reflexivity)) as H0.
        replace (- maxInt - 1 <=? digits_value (x :: t) 0) with true
          by (symmetry; apply Z.leb_le; rewrite maxInt_eq; lia).
        cbn [andb].
        destruct (Z.leb_spec (maxInt + 1) (digits_value (x :: t) 0)).
        -- replace (digits_value (x :: t) 0 <=? maxInt) with false
             by (symmetry; apply Z.leb_gt; lia).
           simpl. discriminate.
        -- replace (digits_value (x :: t) 0 <=? maxInt) with true
             by (symmetry; apply Z.leb_le; lia).
           reflexivity.
      * rewrite Hw. destruct t as [|x t]; [congruence|]. cbn [length Nat.eqb negb andb].
        replace (digits_value (x :: t) 0 <=? maxInt) with false
          by (symmetry; apply Z.leb_gt; rewrite maxUint64_eq, maxInt_eq in *; lia).
        rewrite andb_false_r.
        replace (maxInt + 1 <=? maxUint64) with true by reflexivity.
        simpl. discriminate.
      * simpl. discriminate.
      * rewrite Hw, andb_false_r. cbn [andb].
        destruct He as [->| ->]; simpl; discriminate.
    + (* no sign *)
      destruct (ParseUint_spec (c :: t)) as [(Hne & Hw & Hv & ->)|[(Hne & Hw & Hv & ->)|([E|Hw] & He)]].
      * rewrite Hw.
        pose proof (digits_value_nonneg (c :: t) 0 Hw ltac:(reflexivity)) as H0.
        replace (- maxInt - 1 <=? digits_value (c :: t) 0) with true
          by (symmetry; apply Z.leb_le; rewrite maxInt_eq; lia).
        cbn [andb].
        destruct (Z.leb_spec (maxInt + 1) (digits_value (c :: t) 0)).
        -- replace (digits_value (c :: t) 0 <=? maxInt) with false
             by (symmetry; apply Z.leb_gt; lia).
           simpl. discriminate.
        -- replace (digits_value (c :: t) 0 <=? maxInt) with true
             by (symmetry; apply Z.leb_le; lia).
           reflexivity.
      * rewrite Hw.
        replace (digits_value (c :: t) 0 <=? maxInt) with false
          by (symmetry; apply Z.leb_gt; rewrite maxUint64_eq, maxInt_eq in *; lia).
        rewrite andb_false_r.
        replace (maxInt + 1 <=? maxUint64) with true by reflexivity.
        simpl. discriminate.
      * discriminate.
      * rewrite Hw. cbn [andb].
        destruct He as [->| ->]; simpl; discriminate.
Qed.

Lemma eqb_empty s : String.eqb s EmptyString = true <-> s = EmptyString.
Proof. apply String.eqb_eq. Qed.

Lemma Itoa_nonempty n : Itoa n <> EmptyString.
Proof.
  destruct n as [|p|p]; [discriminate| |].
  - rewrite Itoa_pos. pose proof (Unsigned.to_uint_nonnil p).
    destruct (Pos.to_uint p); simpl; congruence.
  - rewrite Itoa_neg. discriminate.
Qed.

Lemma wrap64_id x : - 2 ^ 63 <= x < 2 ^ 63 <-> wrap64 x = x.
Proof.
  unfold wrap64. split.
  - intros H. rewrite Z.mod_small; lia.
  - intros H. pose proof (Z.mod_pos_bound (x + 2 ^ 63) (2 ^ 64) ltac:(lia)). lia.
Qed.

(** The number [Atoi] gives for a string of digits: the number the digits
    denote, or [maxInt] when that is larger. *)
Lemma Atoi_digits_value w :
  w <> [] -> forallb is_digit w = true ->
  fst (Atoi (string_of_list_ascii w)) = Z.min (digits_value w 0) maxInt.
Proof.
  intros Hne Hw. unfold Atoi. rewrite bytes_of_list.
  destruct (Z.le_gt_cases (digits_value w 0) maxInt) as [Hle|Hgt].
  - rewrite ParseInt_exact by auto. cbn [fst]. lia.
  - destruct (ParseInt_digits w Hne Hw) as [[He Hv]|E].
    + pose proof (ParseInt_spec w) as Hs. unfold fits_int in Hs.
      destruct w as [|c t]; [congruence|].
      assert (Hc : is_digit c = true)
        by (simpl in Hw; apply andb_prop in Hw; tauto).
      pose proof (is_digit_not_sign c Hc) as Hsg.
      unfold is_numeral, numeral_value in Hs. rewrite Hsg in Hs.
      apply orb_false_elim in Hsg as [Hp Hd]. rewrite Hp, Hd, Hw in Hs.
      replace (digits_value (c :: t) 0 <=? maxInt) with false in Hs
        by (symmetry; apply Z.leb_gt; lia).
      rewrite andb_false_r in Hs. congruence.
    + rewrite E. cbn [fst]. lia.
Qed.

Lemma Find_digits re line ms n :
  FindStringSubmatch re line = Some ms ->
  captures n (Plus is_digit) (Cap 0 re) -> (n <= NumSubexp re)%nat ->
  bytes (idx ms n) <> [] /\ forallb is_digit (bytes (idx ms n)) = true /\
  fst (Atoi (idx ms n)) = Z.min (digits_value (bytes (idx ms n)) 0) maxInt.
Proof.
  intros H Hc Hn. destruct (Find_plus _ _ _ _ _ H Hc Hn) as (w & -> & Hne & Hw).
  rewrite bytes_of_list. auto using Atoi_digits_value.
Qed.

End Numerals.

(** * Counting entries *)

Section Counting.

Lemma error_class_spec code :
  error_class code =
  if decide (400 <= code < 600)
  then Some (if decide (code < 500) then "4xx" else "5xx")%string
  else None.
Proof.
  unfold error_class.
  destruct (Z.leb_spec 400 code), (Z.ltb_spec code 500),
    (Z.leb_spec 500 code), (Z.ltb_spec code 600); cbn [andb];
    repeat case_decide; try reflexivity; lia.
Qed.

Lemma updateMetrics_namespace e entry :
  namespace (updateMetrics e entry) = namespace e.
Proof. reflexivity. Qed.

Lemma updateMetrics_requests e entry :
  httpRequestsTotal (updateMetrics e entry) =
  Inc (request_series (namespace e) entry) (httpRequestsTotal e).
Proof. reflexivity. Qed.

Lemma updateMetrics_errors e entry :
  httpErrorsTotal (updateMetrics e entry) =
  match error_series (namespace e) entry with
  | Some lvs => Inc lvs (httpErrorsTotal e)
  | None => httpErrorsTotal e
  end.
Proof.
  unfold updateMetrics, error_series, error_class, request_series.
  cbn [httpErrorsTotal].
  destruct ((400 <=? StatusCode entry) && (StatusCode entry <? 500));
    [reflexivity|].
  destruct ((500 <=? StatusCode entry) && (StatusCode entry <? 600));
    reflexivity.
Qed.

Lemma processLine_namespace e line p c :
  namespace (processLine e line p c) = namespace e.
Proof. unfold processLine. destruct (parseLogLine _ _ _ _); reflexivity. Qed.

Lemma processLines_namespace lines : forall e p c,
  namespace (processLines e lines p c) = namespace e.
Proof.
  induction lines as [|l lines IH]; intros e p c; [reflexivity|].
  unfold processLines in *. simpl. rewrite IH. apply processLine_namespace.
Qed.

Lemma processLines_cons e line lines p c :
  processLines e (line :: lines) p c =
  processLines (processLine e line p c) lines p c.
Proof. reflexivity. Qed.

Lemma parsed_indep e e' lines p c : parsed e lines p c = parsed e' lines p c.
Proof. reflexivity. Qed.

Lemma parsed_cons e e' line lines p c :
  parsed e (line :: lines) p c =
  match parseLogLine e' line p c with
  | Some entry => entry :: parsed e' lines p c
  | None => parsed e' lines p c
  end.
Proof. reflexivity. Qed.

Lemma processLines_counts_requests (e : HTTPLogExporter)
    (lines : list string) (podName containerName : string)
    (lvs : list string) :
  value_of lvs (httpRequestsTotal (processLines e lines podName containerName))
  = (value_of lvs (httpRequestsTotal e) +
     requests_in (namespace e) lvs (parsed e lines podName containerName))%nat.
Proof.
  revert e. induction lines as [|line lines IH]; intros e.
  - simpl. unfold requests_in. simpl. lia.
  - rewrite processLines_cons, IH, processLine_namespace.
    rewrite (parsed_cons e e). unfold processLine.
    destruct (parseLogLine e line podName containerName) as [entry|].
    + rewrite updateMetrics_requests, value_of_Inc. unfold requests_in.
      cbn [List.filter]. rewrite (parsed_indep _ e).
      rewrite (bool_decide_ext _ (lvs = request_series (namespace e) entry))
        by (split; congruence).
      case_bool_decide; case_decide; try congruence; simpl; lia.
    + reflexivity.
Qed.

Lemma processLines_counts_errors (e : HTTPLogExporter)
    (lines : list string) (podName containerName : string)
    (lvs : list string) :
  value_of lvs (httpErrorsTotal (processLines e lines podName containerName))
  = (value_of lvs (httpErrorsTotal e) +
     errors_in (namespace e) lvs (parsed e lines podName containerName))%nat.
Proof.
  revert e. induction lines as [|line lines IH]; intros e.
  - simpl. unfold errors_in. simpl. lia.
  - rewrite processLines_cons, IH, processLine_namespace.
    rewrite (parsed_cons e e). unfold processLine.
    destruct (parseLogLine e line podName containerName) as [entry|].
    + rewrite updateMetrics_errors. unfold errors_in. cbn [List.filter].
      destruct (error_series (namespace e) entry) as [k|] eqn:E.
      * rewrite value_of_Inc, (parsed_indep _ e).
        case_bool_decide; case_decide; try congruence; simpl; lia.
      * rewrite bool_decide_eq_false_2 by discriminate.
        rewrite (parsed_indep _ e). reflexivity.
    + reflexivity.
Qed.

Lemma Inc_lookup (k j : list string) (v : gmap (list string) nat) :
  Inc k v !! j = if decide (k = j) then Some (S (value_of k v)) else v !! j.
Proof.
  unfold Inc. case_decide as H.
  - subst. apply lookup_insert_eq.
  - apply lookup_insert_ne, H.
Qed.

Lemma Inc_comm (k1 k2 : list string) (v : gmap (list string) nat) :
  Inc k1 (Inc k2 v) = Inc k2 (Inc k1 v).
Proof.
  apply map_eq. intros j. rewrite !Inc_lookup, !value_of_Inc.
  repeat case_decide; subst; try congruence; try reflexivity;
    f_equal; lia.
Qed.


Lemma request_series_inj ns a b :
  request_series ns a = request_series ns b <->
  PodName a = PodName b /\ ContainerName a = ContainerName b /\
  StatusCode a = StatusCode b.
Proof.
  unfold request_series. split.
  - intros [= Hp Hc Hs]. apply Itoa_inj in Hs. auto.
  - intros (-> & -> & ->). reflexivity.
Qed.

Lemma error_series_request ns entry lvs :
  error_series ns entry = Some lvs ->
  exists cls, error_class (StatusCode entry) = Some cls /\
              lvs = request_series ns entry ++ [cls].
Proof.
  unfold error_series. destruct (error_class _) as [cls|]; [|discriminate].
  intros [= <-]. eauto.
Qed.

Lemma updateMetrics_comm e a b :
  updateMetrics (updateMetrics e a) b = updateMetrics (updateMetrics e b) a.
Proof.
  assert (H : forall x y,
    updateMetrics x y =
    {| namespace := namespace x;
       httpErrorsTotal := httpErrorsTotal (updateMetrics x y);
       httpRequestsTotal := httpRequestsTotal (updateMetrics x y) |})
    by reflexivity.
  rewrite (H (updateMetrics e a) b), (H (updateMetrics e b) a).
  rewrite !updateMetrics_requests, !updateMetrics_errors, !updateMetrics_namespace.
  f_equal.
  - destruct (error_series (namespace e) a), (error_series (namespace e) b);
      auto using Inc_comm.
  - apply Inc_comm.
Qed.

Lemma processLine_comm e l1 p1 c1 l2 p2 c2 :
  processLine (processLine e l1 p1 c1) l2 p2 c2 =
  processLine (processLine e l2 p2 c2) l1 p1 c1.
Proof.
  unfold processLine.
  change (parseLogLine (match parseLogLine e l1 p1 c1 with
                        | Some entry => updateMetrics e entry | None => e end)
            l2 p2 c2) with (parseLogLine e l2 p2 c2).
  change (parseLogLine (match parseLogLine e l2 p2 c2 with
                        | Some entry => updateMetrics e entry | None => e end)
            l1 p1 c1) with (parseLogLine e l1 p1 c1).
  destruct (parseLogLine e l1 p1 c1) as [a|], (parseLogLine e l2 p2 c2) as [b|];
    try reflexivity.
  - change (parseLogLine (updateMetrics e a) l2 p2 c2) with (parseLogLine e l2 p2 c2). 
    apply updateMetrics_comm.
Qed.

Lemma processLines_perm l1 l2 : 
  Permutation l1 l2 -> forall e p c,
  processLines e l1 p c = processLines e l2 p c.
Proof.
  induction 1 as [|x l l' _ IH|x y l|l l' l'' _ IH1 _ IH2]; intros e p c.
  - reflexivity.
  - rewrite !processLines_cons. apply IH.
  - rewrite !processLines_cons. f_equal. apply processLine_comm.
  - rewrite IH1. apply IH2.
Qed.

Lemma errors_within_requests_update e entry :
  errors_within_requests e -> errors_within_requests (updateMetrics e entry).
Proof.
  intros H lvs cls. rewrite updateMetrics_requests, updateMetrics_errors.
  specialize (H lvs cls). rewrite value_of_Inc.
  destruct (error_series (namespace e) entry) as [k|] eqn:E; [|lia].
  rewrite value_of_Inc.
  apply error_series_request in E as (c0 & _ & ->).
  repeat case_decide; try lia.
  match goal with
  | Heq : _ ++ [_] = _ ++ [_] |- _ => apply app_inj_tail in Heq as [? ?]
  end. congruence.
Qed.

Lemma consistent_update e entry :
  consistent e -> consistent (updateMetrics e entry).
Proof.
  intros [H1 H2]. split.
  - intros lvs. rewrite updateMetrics_errors, updateMetrics_namespace.
    destruct (error_series (namespace e) entry) as [k|] eqn:E; [|apply H1].
    rewrite value_of_Inc. case_decide as Hk.
    + subst. eauto.
    + intros H. apply H1. lia.
  - intros entry' lvs E'. rewrite updateMetrics_namespace in *.
    rewrite updateMetrics_requests, updateMetrics_errors, value_of_Inc.
    pose proof (H2 _ _ E') as Hold.
    destruct (error_series_request _ _ _ E') as (cls' & Hc' & ->).
    destruct (error_series (namespace e) entry) as [k|] eqn:E.
    + rewrite value_of_Inc, Hold. f_equal.
      destruct (error_series_request _ _ _ E) as (cls & Hc & ->).
      repeat case_decide; try reflexivity; exfalso.
      * match goal with
        | Heq : _ ++ [_] = _ ++ [_] |- _ => apply app_inj_tail in Heq as [? ?]
        end. congruence.
      * match goal with
        | Hne : _ ++ [_] <> _ ++ [_] |- _ => apply Hne
        end.
        match goal with
        | Heq : request_series _ _ = request_series _ _ |- _ =>
            pose proof Heq as Hq; apply request_series_inj in Hq as (_ & _ & Hs)
        end.
        rewrite Hs in Hc'. congruence.
    + rewrite Hold. case_decide as Hk; [|lia]. exfalso.
      apply request_series_inj in Hk as (_ & _ & Hs).
      unfold error_series in E. rewrite <- Hs, Hc' in E. discriminate.
Qed.

Lemma value_of_empty lvs : value_of lvs ∅ = 0%nat.
Proof. reflexivity. Qed.

Lemma fresh_consistent ns : consistent (mkExporter ns ∅ ∅).
Proof.
  split.
  - intros lvs. simpl. rewrite value_of_empty. lia.
  - intros entry lvs _. reflexivity.
Qed.

Lemma fresh_errors_within_requests ns :
  errors_within_requests (mkExporter ns ∅ ∅).
Proof. intros lvs cls. simpl. rewrite !value_of_empty. lia. Qed.



End Counting.

(** * A scrape, container by container *)

Section Scrape.

Variable k : Cluster.

(** One container: what [scrapeContainerLogs] and the error branch of
    its caller leave. *)
Lemma scrapeContainer_step s p c :
  scrapeContainer k p s c =
  {| exporter := processLines (exporter s) (lines_read k s (p, c)) p c;
     logLines := logLines s;
     podSelector := podSelector s;
     lastScrapeTime :=
       if scrape_fails k s (p, c) then lastScrapeTime s
       else <[time_series (namespace (exporter s)) (p, c) := Now k p c]>
              (lastScrapeTime s);
     scrapeErrors :=
       if scrape_fails k s (p, c)
       then Inc (failure_series (namespace (exporter s)) (p, c))
                (scrapeErrors s)
       else scrapeErrors s |}.
Proof.
  unfold scrapeContainer, scrapeContainerLogs, scrape_fails, lines_read,
    stream_of. cbn [fst snd].
  destruct (Stream k _ p c _) as [|lines [|]]; cbn.
  - destruct s; reflexivity.
  - rewrite processLines_namespace. reflexivity.
  - reflexivity.
Qed.

Lemma targets_cons pod pods :
  targets (pod :: pods) = targets [pod] ++ targets pods.
Proof. unfold targets. simpl. rewrite app_nil_r. reflexivity. Qed.

Lemma scrapePod_targets pod s :
  scrapePod k s pod = scrapeTargets k s (targets [pod]).
Proof.
  unfold scrapePod, targets, scrapeTargets. cbn [flat_map].
  rewrite app_nil_r.
  destruct (String.eqb (Phase pod) PodRunning); cbn [negb]; [|reflexivity].
  generalize (Containers pod). intros cs. revert s.
  induction cs as [|c cs IH]; intros s; [reflexivity|]. simpl. apply IH.
Qed.

Lemma scrapePods_targets pods : forall s,
  fold_left (scrapePod k) pods s = scrapeTargets k s (targets pods).
Proof.
  induction pods as [|pod pods IH]; intros s; [reflexivity|].
  cbn [fold_left]. rewrite IH, scrapePod_targets.
  unfold scrapeTargets. rewrite (targets_cons pod pods), fold_left_app.
  reflexivity.
Qed.

Lemma scrapeContainer_config s p c :
  namespace (exporter (scrapeContainer k p s c)) = namespace (exporter s) /\
  logLines (scrapeContainer k p s c) = logLines s /\
  podSelector (scrapeContainer k p s c) = podSelector s.
Proof.
  rewrite scrapeContainer_step. cbn. rewrite processLines_namespace. auto.
Qed.

Lemma stream_of_ext s s' t :
  namespace (exporter s') = namespace (exporter s) ->
  logLines s' = logLines s ->
  stream_of k s' t = stream_of k s t.
Proof. unfold stream_of. intros -> ->. reflexivity. Qed.

Lemma scrape_fails_step s p c t :
  scrape_fails k (scrapeContainer k p s c) t = scrape_fails k s t.
Proof.
  destruct (scrapeContainer_config s p c) as (Hn & Hl & _).
  unfold scrape_fails. rewrite (stream_of_ext _ _ _ Hn Hl). reflexivity.
Qed.

Lemma lines_read_step s p c t :
  lines_read k (scrapeContainer k p s c) t = lines_read k s t.
Proof.
  destruct (scrapeContainer_config s p c) as (Hn & Hl & _).
  unfold lines_read. rewrite (stream_of_ext _ _ _ Hn Hl). reflexivity.
Qed.

Lemma entries_read_step s p c ts :
  entries_read k (scrapeContainer k p s c) ts = entries_read k s ts.
Proof.
  unfold entries_read. induction ts as [|t ts IH]; [reflexivity|].
  cbn [flat_map]. rewrite IH, lines_read_step.
  rewrite (parsed_indep _ (exporter s)). reflexivity.
Qed.

Lemma scrapeTargets_cons s t ts :
  scrapeTargets k s (t :: ts) =
  scrapeTargets k (scrapeContainer k (fst t) s (snd t)) ts.
Proof. reflexivity. Qed.

Lemma scrapeTargets_config ts : forall s,
  namespace (exporter (scrapeTargets k s ts)) = namespace (exporter s) /\
  logLines (scrapeTargets k s ts) = logLines s /\
  podSelector (scrapeTargets k s ts) = podSelector s.
Proof.
  induction ts as [|[p c] ts IH]; intros s; [auto|].
  rewrite scrapeTargets_cons. cbn [fst snd].
  destruct (IH (scrapeContainer k p s c)) as (-> & -> & ->).
  apply scrapeContainer_config.
Qed.

Lemma requests_in_app ns lvs l1 l2 :
  requests_in ns lvs (l1 ++ l2) =
  (requests_in ns lvs l1 + requests_in ns lvs l2)%nat.
Proof. unfold requests_in. rewrite List.filter_app, length_app. reflexivity. Qed.

Lemma errors_in_app ns lvs l1 l2 :
  errors_in ns lvs (l1 ++ l2) =
  (errors_in ns lvs l1 + errors_in ns lvs l2)%nat.
Proof. unfold errors_in. rewrite List.filter_app, length_app. reflexivity. Qed.

Lemma scrapeTargets_requests ts : forall s lvs,
  value_of lvs (httpRequestsTotal (exporter (scrapeTargets k s ts))) =
  (value_of lvs (httpRequestsTotal (exporter s)) +
   requests_in (namespace (exporter s)) lvs (entries_read k s ts))%nat.
Proof.
  induction ts as [|[p c] ts IH]; intros s lvs.
  - unfold requests_in. simpl. lia.
  - rewrite scrapeTargets_cons, IH. cbn [fst snd].
    destruct (scrapeContainer_config s p c) as (-> & _ & _).
    rewrite entries_read_step.
    change (entries_read k s ((p, c) :: ts)) with
      (parsed (exporter s) (lines_read k s (p, c)) p c ++ entries_read k s ts).
    rewrite requests_in_app, scrapeContainer_step. cbn [exporter].
    rewrite processLines_counts_requests. lia.
Qed.

Lemma scrapeTargets_errors ts : forall s lvs,
  value_of lvs (httpErrorsTotal (exporter (scrapeTargets k s ts))) =
  (value_of lvs (httpErrorsTotal (exporter s)) +
   errors_in (namespace (exporter s)) lvs (entries_read k s ts))%nat.
Proof.
  induction ts as [|[p c] ts IH]; intros s lvs.
  - unfold errors_in. simpl. lia.
  - rewrite scrapeTargets_cons, IH. cbn [fst snd].
    destruct (scrapeContainer_config s p c) as (-> & _ & _).
    rewrite entries_read_step.
    change (entries_read k s ((p, c) :: ts)) with
      (parsed (exporter s) (lines_read k s (p, c)) p c ++ entries_read k s ts).
    rewrite errors_in_app, scrapeContainer_step. cbn [exporter].
    rewrite processLines_counts_errors. lia.
Qed.

Lemma filter_ext_step s p c lvs ts :
  List.filter (fun t => scrape_fails k (scrapeContainer k p s c) t &&
                   bool_decide (failure_series (namespace (exporter s)) t = lvs))
    ts =
  List.filter (fun t => scrape_fails k s t &&
                   bool_decide (failure_series (namespace (exporter s)) t = lvs))
    ts.
Proof.
  apply List.filter_ext. intros t. rewrite scrape_fails_step. reflexivity.
Qed.

Lemma scrapeTargets_failures ts : forall s lvs,
  value_of lvs (scrapeErrors (scrapeTargets k s ts)) =
  (value_of lvs (scrapeErrors s) +
   length (List.filter
             (fun t => scrape_fails k s t &&
                       bool_decide
                         (failure_series (namespace (exporter s)) t = lvs))
             ts))%nat.
Proof.
  induction ts as [|[p c] ts IH]; intros s lvs.
  - simpl. lia.
  - rewrite scrapeTargets_cons, IH. cbn [fst snd].
    destruct (scrapeContainer_config s p c) as (-> & _ & _).
    rewrite filter_ext_step. cbn [List.filter].
    rewrite scrapeContainer_step. cbn [scrapeErrors].
    destruct (scrape_fails k s (p, c)); cbn [andb].
    + rewrite value_of_Inc.
      case_bool_decide; case_decide; try congruence; simpl; lia.
    + lia.
Qed.

Lemma scrapeTargets_stamp_miss ts : forall s key,
  (forall t, In t ts -> scrape_fails k s t = false ->
     time_series (namespace (exporter s)) t <> key) ->
  lastScrapeTime (scrapeTargets k s ts) !! key = lastScrapeTime s !! key.
Proof.
  induction ts as [|[p c] ts IH]; intros s key H; [reflexivity|].
  rewrite scrapeTargets_cons, IH. cbn [fst snd].
  - rewrite scrapeContainer_step. cbn [lastScrapeTime].
    destruct (scrape_fails k s (p, c)) eqn:E; [reflexivity|].
    apply lookup_insert_ne. apply H; simpl; auto.
  - intros t Ht. rewrite scrape_fails_step.
    destruct (scrapeContainer_config s (fst (p, c)) (snd (p, c))) as (-> & _ & _).
    apply H. simpl. auto.
Qed.

Lemma time_series_inj ns t t' : time_series ns t = time_series ns t' -> t = t'.
Proof. destruct t, t'. unfold time_series. simpl. congruence. Qed.

Lemma scrapeTargets_stamp_hit ts : forall s t,
  In t ts -> scrape_fails k s t = false ->
  lastScrapeTime (scrapeTargets k s ts)
    !! time_series (namespace (exporter s)) t = Some (Now k (fst t) (snd t)).
Proof.
  induction ts as [|[p c] ts IH]; intros s t Ht Hok; [destruct Ht|].
  rewrite scrapeTargets_cons. cbn [fst snd].
  destruct (scrapeContainer_config s p c) as (Hn & _ & _).
  destruct (decide (t ∈ ts)) as [Hin|Hout].
  - apply list_elem_of_In in Hin.
    rewrite <- Hn. apply IH; [auto|]. rewrite scrape_fails_step. auto.
  - rewrite list_elem_of_In in Hout.
    destruct Ht as [<-|Ht]; [|contradiction].
    rewrite scrapeTargets_stamp_miss.
    + rewrite scrapeContainer_step. cbn [lastScrapeTime]. rewrite Hok.
      apply lookup_insert_eq.
    + intros t' Ht' _ E. rewrite Hn in E. apply time_series_inj in E.
      congruence.
Qed.

(** A property of the counters that [updateMetrics] keeps is kept by a
    whole scrape. *)
Section Preserved.

Variable P : HTTPLogExporter -> Prop.
Hypothesis P_update : forall e entry, P e -> P (updateMetrics e entry).

Lemma processLines_preserves lines : forall e p c,
  P e -> P (processLines e lines p c).
Proof.
  induction lines as [|l lines IH]; intros e p c H; [exact H|].
  rewrite processLines_cons. apply IH. unfold processLine.
  destruct (parseLogLine e l p c); auto.
Qed.

Lemma scrapeTargets_preserves ts : forall s,
  P (exporter s) -> P (exporter (scrapeTargets k s ts)).
Proof.
  induction ts as [|[p c] ts IH]; intros s H; [exact H|].
  rewrite scrapeTargets_cons. apply IH. cbn [fst snd].
  rewrite scrapeContainer_step. cbn [exporter].
  apply processLines_preserves, H.
Qed.

End Preserved.

Lemma scrapeLogs_targets s :
  scrapeLogs k s =
  match List_ k (namespace (exporter s)) (podSelector s) with
  | None => (s, Some ErrListPods)
  | Some pods => (scrapeTargets k s (targets pods), None)
  end.
Proof.
  unfold scrapeLogs. destruct (List_ k _ _); [|reflexivity].
  rewrite scrapePods_targets. reflexivity.
Qed.

End Scrape.

Lemma targets_idle pods :
  Forall (fun pod => Phase pod <> PodRunning) pods -> targets pods = [].
Proof.
  induction 1 as [|pod pods Hp _ IH]; [reflexivity|].
  rewrite targets_cons, IH, app_nil_r. unfold targets. cbn [flat_map].
  destruct (String.eqb_spec (Phase pod) PodRunning); [contradiction|reflexivity].
Qed.

(** * Further properties of the exporter *)

(** X1.  With strategies 1 to 3 the numeric fields of the entry are the
    numbers the captured digits denote in base 10, leading zeros
    ignored, and [maxInt] when the number is larger than that; with
    strategy 3 the response size is 0. *)
Theorem numeric_fields_are_the_digits (e : HTTPLogExporter)
    (line podName containerName : string) :
  let number := fun s => Z.min (digits_value (bytes s) 0) maxInt in
  (forall ms entry,
     FindStringSubmatch combinedLogPattern line = Some ms ->
     parseLogLine e line podName containerName = Some entry ->
     StatusCode entry = number (idx ms 5) /\
     ResponseSize entry = number (idx ms 6)) /\
  (forall ms entry,
     FindStringSubmatch combinedLogPattern line = None ->
     FindStringSubmatch commonLogPattern line = Some ms ->
     parseLogLine e line podName containerName = Some entry ->
     StatusCode entry = number (idx ms 5) /\
     ResponseSize entry = number (idx ms 6)) /\
  (forall ms entry,
     FindStringSubmatch combinedLogPattern line = None ->
     FindStringSubmatch commonLogPattern line = None ->
     FindStringSubmatch jsonLogPattern line = Some ms ->
     parseLogLine e line podName containerName = Some entry ->
     StatusCode entry = number (idx ms 1) /\ ResponseSize entry = 0).
Proof.
  intros number. subst number. cbv beta. split; [|split].
  - intros ms entry E1 H. rewrite (parse_combined _ _ _ _ _ E1) in H.
    injection H as <-. cbn [StatusCode ResponseSize]. split.
    + apply (Find_digits _ _ _ 5%nat E1);
        [apply combined_numbers; simpl; auto|rewrite NumSubexp_combined; lia].
    + apply (Find_digits _ _ _ 6%nat E1);
        [apply combined_numbers; simpl; auto|rewrite NumSubexp_combined; lia].
  - intros ms entry E1 E2 H. rewrite (parse_common _ _ _ _ _ E1 E2) in H.
    injection H as <-. cbn [StatusCode ResponseSize]. split.
    + apply (Find_digits _ _ _ 5%nat E2);
        [apply common_numbers; simpl; auto|rewrite NumSubexp_common; lia].
    + apply (Find_digits _ _ _ 6%nat E2);
        [apply common_numbers; simpl; auto|rewrite NumSubexp_common; lia].
  - intros ms entry E1 E2 E3 H. rewrite (parse_json _ _ _ _ _ E1 E2 E3) in H.
    injection H as <-. cbn [StatusCode ResponseSize status_only].
    split; [|reflexivity].
    apply (Find_digits _ _ _ 1%nat E3);
      [apply json_number|rewrite NumSubexp_json; lia].
Qed.

Lemma numeric_fields_are_the_digits_witness :
  StatusCode (status_only maxInt "test-pod" "app") =
    Z.min (digits_value (bytes "99999999999999999999") 0) maxInt /\
  ResponseSize (status_only maxInt "test-pod" "app") = 0.
Proof.
  refine (proj2 (proj2 (numeric_fields_are_the_digits test_exporter
                          line_json_huge "test-pod" "app"))
            (json_sample line_json_huge)
            (status_only maxInt "test-pod" "app") _ _ _ _); by_computation.
Defined.

(** X2.  Every entry [parseLogLine] returns carries the pod and the
    container names it was called with, has no user agent and a response
    size between 0 and [maxInt]; when neither access-log pattern
    matches, nothing but its status code and these names is
    populated. *)
Theorem entry_carries_source (e : HTTPLogExporter)
    (line podName containerName : string) (entry : LogEntry) :
  parseLogLine e line podName containerName = Some entry ->
  PodName entry = podName /\ ContainerName entry = containerName /\
  UserAgent entry = EmptyString /\
  0 <= ResponseSize entry <= maxInt /\
  (FindStringSubmatch combinedLogPattern line = None ->
   FindStringSubmatch commonLogPattern line = None ->
   entry = status_only (StatusCode entry) podName containerName).
Proof.
  intros H.
  destruct (FindStringSubmatch combinedLogPattern line) as [ms|] eqn:E1.
  { rewrite (parse_combined _ _ _ _ _ E1) in H. injection H as <-.
    cbn. repeat split; try discriminate;
      apply (Find_number _ _ _ 6%nat E1);
        try (apply combined_numbers; simpl; auto);
        rewrite NumSubexp_combined; lia. }
  destruct (FindStringSubmatch commonLogPattern line) as [ms|] eqn:E2.
  { rewrite (parse_common _ _ _ _ _ E1 E2) in H. injection H as <-.
    cbn. repeat split; try discriminate;
      apply (Find_number _ _ _ 6%nat E2);
        try (apply common_numbers; simpl; auto);
        rewrite NumSubexp_common; lia. }
  assert (Hs : exists code, entry = status_only code podName containerName).
  { unfold parseLogLine in H. rewrite E1, E2 in H.
    destruct (FindStringSubmatch jsonLogPattern line);
      [injection H as <-; eexists; reflexivity|].
    destruct (FindStringSubmatch statusCodePattern line);
      [injection H as <-; eexists; reflexivity|discriminate]. }
  destruct Hs as [code ->]. cbn. rewrite maxInt_eq. repeat split; lia.
Qed.

Lemma entry_carries_source_witness :
  PodName (status_only 503 "service-pod" "backend") = "service-pod"%string /\
  ContainerName (status_only 503 "service-pod" "backend") = "backend"%string /\
  UserAgent (status_only 503 "service-pod" "backend") = EmptyString /\
  0 <= ResponseSize (status_only 503 "service-pod" "backend") <= maxInt /\
  (FindStringSubmatch combinedLogPattern line_503 = None ->
   FindStringSubmatch commonLogPattern line_503 = None ->
   status_only 503 "service-pod" "backend" =
   status_only (StatusCode (status_only 503 "service-pod" "backend"))
     "service-pod" "backend").
Proof.
  apply (entry_carries_source test_exporter line_503). by_computation.
Defined.






(** X7.  The counters the scanning loop leaves do not depend on the
    order of the lines. *)
Theorem scan_order_irrelevant (e : HTTPLogExporter)
    (lines lines' : list string) (podName containerName : string) :
  Permutation lines lines' ->
  processLines e lines podName containerName =
  processLines e lines' podName containerName.
Proof. intros H. apply processLines_perm, H. Qed.

Lemma scan_order_irrelevant_witness :
  processLines test_exporter [line_503; line_200; line_two_tokens]
    "test-pod" "app" =
  processLines test_exporter [line_two_tokens; line_503; line_200]
    "test-pod" "app".
Proof.
  apply scan_order_irrelevant. symmetry.
  apply (Permutation_cons_append [line_503; line_200] line_two_tokens).
Defined.

(** X8.  [getEnvOrDefault] gives the value of the variable when it is set
    and not empty, and the default when it is unset or set to the empty
    string; its result is never empty when the default is not. *)
Theorem getEnvOrDefault_cases (env : Env) (envVar defaultValue : string) :
  (forall v, env !! envVar = Some v -> v <> EmptyString ->
     getEnvOrDefault env envVar defaultValue = v) /\
  (env !! envVar = None \/ env !! envVar = Some EmptyString ->
     getEnvOrDefault env envVar defaultValue = defaultValue) /\
  (defaultValue <> EmptyString ->
     getEnvOrDefault env envVar defaultValue <> EmptyString).
Proof.
  unfold getEnvOrDefault, Getenv. repeat split.
  - intros v -> Hv. simpl. destruct (String.eqb_spec v EmptyString); [congruence|reflexivity].
  - intros [-> | ->]; reflexivity.
  - intros Hd. destruct (env !! envVar) as [v|]; simpl; [|exact Hd].
    destruct (String.eqb_spec v EmptyString); simpl; auto.
Qed.

Lemma getEnvOrDefault_cases_witness :
  getEnvOrDefault test_env "PORT" "8080" = "8080"%string.
Proof.
  refine (proj1 (proj2 (getEnvOrDefault_cases test_env "PORT" "8080")) _).
  left. by_computation.
Defined.

(** X9.  [parseScrapeInterval] gives the default of 30 seconds unless
    SCRAPE_INTERVAL_SECONDS holds a decimal numeral (optional sign, at
    least one digit) whose integer fits 64 bits; it then gives that
    many seconds as an [int64] count of nanoseconds, with no check of
    sign or size. *)
Theorem parseScrapeInterval_spec (env : Env) :
  parseScrapeInterval env =
  match env !! scrapeIntervalEnvVar with
  | Some s =>
      if fits_int (bytes s) then wrap64 (numeral_value (bytes s) * Second)
      else defaultScrapeInterval
  | None => defaultScrapeInterval
  end.
Proof.
  unfold parseScrapeInterval, Getenv.
  destruct (env !! scrapeIntervalEnvVar) as [s|]; simpl; [|reflexivity].
  destruct (String.eqb_spec s EmptyString) as [->|Hne]; simpl; [reflexivity|].
  unfold Atoi. pose proof (ParseInt_spec (bytes s)) as H.
  destruct (fits_int (bytes s)).
  - rewrite H. reflexivity.
  - destruct (ParseInt (bytes s)) as [v [e|]]; [reflexivity|]. simpl in H. congruence.
Qed.

(** X10.  Writing the integer [n] in decimal into
    SCRAPE_INTERVAL_SECONDS configures [n] seconds, zero and negative
    [n] included, exactly when [n] is between -9223372036 and
    9223372036; outside these bounds the product with [time.Second]
    wraps around. *)
Theorem parseScrapeInterval_round_trip (env : Env) (n : Z) :
  - maxInt - 1 <= n <= maxInt ->
  env !! scrapeIntervalEnvVar = Some (Itoa n) ->
  parseScrapeInterval env = wrap64 (n * Second) /\
  (parseScrapeInterval env = n * Second <->
   - 9223372036 <= n <= 9223372036).
Proof.
  intros Hn He.
  assert (Hp : parseScrapeInterval env = wrap64 (n * Second)).
  { unfold parseScrapeInterval, Getenv. rewrite He. simpl.
    destruct (String.eqb_spec (Itoa n) EmptyString) as [E|_];
      [destruct (Itoa_nonempty n E)|].
    simpl. rewrite (Atoi_Itoa n Hn). reflexivity. }
  split; [exact Hp|]. rewrite Hp, <- wrap64_id. unfold Second. lia.
Qed.

Lemma parseScrapeInterval_round_trip_witness :
  parseScrapeInterval test_env = wrap64 (60 * Second) /\
  (parseScrapeInterval test_env = 60 * Second <->
   - 9223372036 <= 60 <= 9223372036).
Proof.
  apply parseScrapeInterval_round_trip; [|by_computation].
  vm_compute. split; discriminate.
Defined.

(** X11.  [parseLogLines] gives the default of 100 unless
    LOG_LINES_LIMIT holds a decimal numeral whose integer fits 64 bits,
    and then that integer as it is; writing any 64-bit integer in
    decimal into the variable, negative ones included, configures that
    integer. *)
Theorem parseLogLines_spec (env : Env) :
  parseLogLines env =
    match env !! logLinesEnvVar with
    | Some s =>
        if fits_int (bytes s) then numeral_value (bytes s)
        else defaultLogLines
    | None => defaultLogLines
    end /\
  (forall n, - maxInt - 1 <= n <= maxInt ->
     env !! logLinesEnvVar = Some (Itoa n) -> parseLogLines env = n).
Proof.
  split.
  - unfold parseLogLines, Getenv.
    destruct (env !! logLinesEnvVar) as [s|]; simpl; [|reflexivity].
    destruct (String.eqb_spec s EmptyString) as [->|Hne]; simpl;
      [reflexivity|].
    pose proof (ParseInt_spec (bytes s)) as H.
    destruct (fits_int (bytes s)).
    + rewrite H. reflexivity.
    + destruct (ParseInt (bytes s)) as [v [e|]]; [reflexivity|].
      simpl in H. congruence.
  - intros n Hn He. unfold parseLogLines, Getenv. rewrite He. simpl.
    destruct (String.eqb_spec (Itoa n) EmptyString) as [E|_];
      [destruct (Itoa_nonempty n E)|].
    simpl. fold (Atoi (Itoa n)). rewrite (Atoi_Itoa n Hn). reflexivity.
Qed.

Lemma parseLogLines_spec_witness : parseLogLines test_env = -10.
Proof.
  refine (proj2 (parseLogLines_spec test_env) (-10) _ _); [|by_computation].
  vm_compute. split; discriminate.
Defined.

(** X12.  [scrapeLogs] returns an error exactly when listing the pods
    fails, and then changes nothing; the failure of a container never
    ends the scrape.  Whatever happens, the namespace, the tail limit
    and the pod selector stay as they were. *)
Theorem scrapeLogs_outcome (k : Cluster) (s : Scraper) :
  (snd (scrapeLogs k s) = None <->
   List_ k (namespace (exporter s)) (podSelector s) <> None) /\
  (snd (scrapeLogs k s) <> None -> fst (scrapeLogs k s) = s) /\
  namespace (exporter (fst (scrapeLogs k s))) = namespace (exporter s) /\
  logLines (fst (scrapeLogs k s)) = logLines s /\
  podSelector (fst (scrapeLogs k s)) = podSelector s.
Proof.
  rewrite scrapeLogs_targets.
  destruct (List_ k _ _) as [pods|]; cbn [fst snd].
  - split; [split; congruence|]. split; [congruence|].
    apply scrapeTargets_config.
  - split; [split; congruence|]. auto.
Qed.

(** X13.  When no pod of the listing is in phase Running, a scrape asks
    for no logs and changes nothing. *)
Theorem scrapeLogs_skips_idle_pods (k : Cluster) (s : Scraper)
    (pods : list Pod) :
  List_ k (namespace (exporter s)) (podSelector s) = Some pods ->
  Forall (fun pod => Phase pod <> PodRunning) pods ->
  scrapeLogs k s = (s, None).
Proof.
  intros Hl Hp. rewrite scrapeLogs_targets, Hl, (targets_idle pods Hp).
  reflexivity.
Qed.

Lemma scrapeLogs_skips_idle_pods_witness :
  scrapeLogs idle_cluster test_scraper = (test_scraper, None).
Proof.
  apply (scrapeLogs_skips_idle_pods idle_cluster test_scraper
           [mkPod "job" "Succeeded" ["main"]%string]); [reflexivity|].
  repeat constructor. discriminate.
Defined.

(** X14.  After a scrape, every request series and every error series
    holds what it held before plus the number of matching entries among
    all the lines read from the containers of the Running pods; the
    lines read from a stream before it broke are counted, and a stream
    that could not be opened gives none. *)
Theorem scrapeLogs_counts (k : Cluster) (s : Scraper) (pods : list Pod) :
  List_ k (namespace (exporter s)) (podSelector s) = Some pods ->
  let e := exporter s in
  let e' := exporter (fst (scrapeLogs k s)) in
  let entries := entries_read k s (targets pods) in
  (forall lvs, value_of lvs (httpRequestsTotal e') =
     (value_of lvs (httpRequestsTotal e) +
      requests_in (namespace e) lvs entries)%nat) /\
  (forall lvs, value_of lvs (httpErrorsTotal e') =
     (value_of lvs (httpErrorsTotal e) +
      errors_in (namespace e) lvs entries)%nat).
Proof.
  intros Hl e e' entries. subst e e' entries.
  rewrite scrapeLogs_targets, Hl. cbn [fst].
  split; intros lvs; [apply scrapeTargets_requests|apply scrapeTargets_errors].
Qed.

Lemma scrapeLogs_counts_witness :
  let e' := exporter (fst (scrapeLogs test_cluster test_scraper)) in
  let entries := entries_read test_cluster test_scraper (targets test_pods) in
  (forall lvs, value_of lvs (httpRequestsTotal e') =
     (value_of lvs (httpRequestsTotal test_exporter) +
      requests_in "test-namespace" lvs entries)%nat) /\
  (forall lvs, value_of lvs (httpErrorsTotal e') =
     (value_of lvs (httpErrorsTotal test_exporter) +
      errors_in "test-namespace" lvs entries)%nat).
Proof.
  apply (scrapeLogs_counts test_cluster test_scraper test_pods). reflexivity.
Defined.

(** X15.  After a scrape, every series of the scrape-error family holds
    what it held before plus the number of visited containers whose
    scrape failed (stream not opened, or broken while read) and whose
    scrape_failed series it is. *)
Theorem scrapeLogs_failures (k : Cluster) (s : Scraper) (pods : list Pod)
    (lvs : list string) :
  List_ k (namespace (exporter s)) (podSelector s) = Some pods ->
  value_of lvs (scrapeErrors (fst (scrapeLogs k s))) =
  (value_of lvs (scrapeErrors s) +
   length (List.filter
             (fun t => scrape_fails k s t &&
                       bool_decide
                         (failure_series (namespace (exporter s)) t = lvs))
             (targets pods)))%nat.
Proof.
  intros Hl. rewrite scrapeLogs_targets, Hl. cbn [fst].
  apply scrapeTargets_failures.
Qed.

Lemma scrapeLogs_failures_witness :
  value_of ["test-namespace"; "web"; "sidecar"; "scrape_failed"]%string
    (scrapeErrors (fst (scrapeLogs test_cluster test_scraper))) = 1%nat.
Proof.
  refine (eq_trans (scrapeLogs_failures test_cluster test_scraper test_pods
                      _ _) _); by_computation.
Defined.

(** X16.  After a scrape, the last-scrape time of every visited
    container whose stream was read to its end is the clock reading
    taken for it, and every other series of that family, those of the
    containers whose scrape failed included, is as it was. *)
Theorem scrapeLogs_stamps (k : Cluster) (s : Scraper) (pods : list Pod) :
  List_ k (namespace (exporter s)) (podSelector s) = Some pods ->
  let ns := namespace (exporter s) in
  let stamps := lastScrapeTime (fst (scrapeLogs k s)) in
  (forall t, In t (targets pods) -> scrape_fails k s t = false ->
     stamps !! time_series ns t = Some (Now k (fst t) (snd t))) /\
  (forall lvs,
     (forall t, In t (targets pods) -> scrape_fails k s t = false ->
        time_series ns t <> lvs) ->
     stamps !! lvs = lastScrapeTime s !! lvs).
Proof.
  intros Hl ns stamps. subst ns stamps.
  rewrite scrapeLogs_targets, Hl. cbn [fst]. split.
  - apply scrapeTargets_stamp_hit.
  - intros lvs. apply scrapeTargets_stamp_miss.
Qed.

Lemma scrapeLogs_stamps_witness :
  lastScrapeTime (fst (scrapeLogs test_cluster test_scraper))
    !! ["test-namespace"; "web"; "nginx"]%string = Some 1700000000.
Proof.
  refine (proj1 (scrapeLogs_stamps test_cluster test_scraper test_pods _)
            ("web", "nginx")%string _ _); try by_computation.
  simpl. auto.
Defined.

(** X17.  If no error series counts more than the request series it
    refines, this is still so after a scrape. *)
Theorem scrapeLogs_keeps_errors_within_requests (k : Cluster) (s : Scraper) :
  errors_within_requests (exporter s) ->
  errors_within_requests (exporter (fst (scrapeLogs k s))).
Proof.
  intros H. rewrite scrapeLogs_targets.
  destruct (List_ k _ _) as [pods|]; cbn [fst]; [|exact H].
  apply scrapeTargets_preserves; [apply errors_within_requests_update|exact H].
Qed.

Lemma scrapeLogs_keeps_errors_within_requests_witness :
  errors_within_requests (exporter (fst (scrapeLogs test_cluster test_scraper))).
Proof.
  apply scrapeLogs_keeps_errors_within_requests.
  apply fresh_errors_within_requests.
Defined.

(** X18.  If every error series that counts something is that of an
    error code with its own class, and every error code has been counted
    as often as an error as it has as a request, this is still so after
    a scrape. *)
Theorem scrapeLogs_keeps_consistent (k : Cluster) (s : Scraper) :
  consistent (exporter s) -> consistent (exporter (fst (scrapeLogs k s))).
Proof.
  intros H. rewrite scrapeLogs_targets.
  destruct (List_ k _ _) as [pods|]; cbn [fst]; [|exact H].
  apply scrapeTargets_preserves; [apply consistent_update|exact H].
Qed.

Lemma scrapeLogs_keeps_consistent_witness :
  consistent (exporter (fst (scrapeLogs test_cluster test_scraper))).
Proof. apply scrapeLogs_keeps_consistent. apply fresh_consistent. Defined.
